(** * Searcherer: a shallow embedding of [Dictionary] and [Searcherer]

    Source: [src/api/Dictionary.js] (second, regular-expression-map version)
    and [src/api/Searcherer.js] (the second [Searcherer] class, concatenated
    into [src/src/cli/CLI.js]).

    JavaScript values that reach the code are modelled as decoded JSON
    values ([json]); [undefined] is [None] of [jsv].  Thrown exceptions are
    the [Throw] branch of [res].  A [RegExp] object is the compiled program
    of a regular-expression engine together with its mutable [lastIndex];
    the engine itself is a parameter ([RegExpEngine]), and [mini_engine]
    below is one concrete engine for a fragment of the JavaScript syntax. *)

From Stdlib Require Import String Ascii List Arith ZArith Lia DecimalString Bool Sorted.
Import ListNotations.
Open Scope list_scope.
Open Scope string_scope.
Open Scope nat_scope.
Set Warnings "-register-all".

(** ** JavaScript values and exceptions *)

Inductive js_error : Type :=
| TypeError
| SyntaxError
| IOError.

(** The completion of a JavaScript call: a normal value or a thrown error. *)
Inductive res (A : Type) : Type :=
| Ok : A -> res A
| Throw : js_error -> res A.
Arguments Ok {A} _.
Arguments Throw {A} _.

Definition res_bind {A B} (r : res A) (f : A -> res B) : res B :=
  match r with
  | Ok a => f a
  | Throw e => Throw e
  end.

Notation "x <- r ;; k" := (res_bind r (fun x => k))
  (at level 61, r at next level, right associativity).

(** ** Numbers

    A JavaScript number is an IEEE-754 binary64 value; [JNum x] holds its
    64-bit pattern [x] (sign, 11-bit biased exponent, 52-bit fraction).
    [JSON.parse] never returns [NaN]; it returns [-0] for texts such as
    ["-0"], which the model represents by [+0]: everything this program
    does with a parsed number ([||], [Set.prototype.add], which itself
    turns [-0] into [+0], [===] and [ToString]) treats [-0] as [+0].  On
    these patterns two numbers are the same value exactly when their
    patterns are equal. *)

Module Num.
Local Open Scope Z_scope.

Definition two52 : Z := 2 ^ 52.
Definition infinity_bits : Z := 2047 * two52.
Definition sign_bit : Z := 2 ^ 63.

(** The magnitude of the positive rational [a / b] rounded to the nearest
    binary64 value, ties to even (the rounding of [RoundMVResult] and of
    the Number value of a numeric literal), as a pattern with sign 0:
    subnormal results, and [Infinity] past the largest finite value. *)
Definition round_bits (a b : Z) : Z :=
  if a =? 0 then 0 else
  let k0 := Z.log2 a - Z.log2 b in
  let k := if k0 >=? 0 then (if a <? b * 2 ^ k0 then k0 - 1 else k0)
           else (if a * 2 ^ (- k0) <? b then k0 - 1 else k0) in
  let e := Z.max (k - 52) (-1074) in
  let num := if e >=? 0 then a else a * 2 ^ (- e) in
  let den := if e >=? 0 then b * 2 ^ e else b in
  let q := num / den in
  let r := num mod den in
  let m := if (den <? 2 * r) || ((2 * r =? den) && Z.odd q) then q + 1 else q in
  let '(m, e) := if m =? 2 * two52 then (two52, e + 1) else (m, e) in
  if e >? 971 then infinity_bits else (e + 1074) * two52 + m.

(** The magnitude [M * 10^X] of a decimal literal whose digits [M] has
    [L] digits.  Past [10^400] every such value rounds to [Infinity], below
    [10^-400] to [0]; in between the rational is computed exactly. *)
Definition decimal_bits (M X L : Z) : Z :=
  if M =? 0 then 0
  else if 400 <? X then infinity_bits
  else if X + L <? -400 then 0
  else if X >=? 0 then round_bits (M * 10 ^ X) 1
  else round_bits M (10 ^ (- X)).

(** The decimal digits of a natural number. *)
Definition digits_of (n : Z) : string :=
  NilEmpty.string_of_uint (N.to_uint (Z.to_N n)).

Fixpoint zeros (n : nat) : string :=
  match n with
  | O => EmptyString
  | S n' => String "0" (zeros n')
  end.

(** The least [j] of [lo], [lo + 1], ... (at most [fuel] of them) with
    [vn / vd < 10^j]. *)
Fixpoint least_pow10 (vn vd : Z) (fuel : nat) (j : Z) : Z :=
  match fuel with
  | O => j
  | S f =>
      if (if j >=? 0 then vn <? vd * 10 ^ j else vn * 10 ^ (- j) <? vd) then j
      else least_pow10 vn vd f (j + 1)
  end.

(** [s * 10^t] rounds to the pattern [y]. *)
Definition rounds_to (y s t : Z) : bool :=
  if t >=? 0 then round_bits (s * 10 ^ t) 1 =? y else round_bits s (10 ^ (- t)) =? y.

(** Steps 5 of [Number::toString(x, 10)] for a positive finite value
    [vn / vd] with pattern [y] and [10^(N-1) <= vn / vd < 10^N]: the
    fewest digits [k] (from [k] up to 17) such that a [k]-digit [s] with
    [s * 10^(N-k)] rounding to [y] exists; of the two nearest candidates
    the closer one, and the even one on a tie.  The result is [(s, t)]
    with value [s * 10^t]. *)
Fixpoint shortest (y vn vd N : Z) (fuel : nat) (k : Z) : Z * Z :=
  let t := N - k in
  let lo := if t >=? 0 then vn / (vd * 10 ^ t) else (vn * 10 ^ (- t)) / vd in
  let hi := lo + 1 in
  (* 2v compared with (lo + hi) * 10^t *)
  let c := if t >=? 0 then Z.compare (2 * vn) ((lo + hi) * 10 ^ t * vd)
           else Z.compare (2 * vn * 10 ^ (- t)) ((lo + hi) * vd) in
  let ok_lo := (1 <=? lo) && rounds_to y lo t in
  let ok_hi := rounds_to y hi t in
  match fuel with
  | O => (lo, t)
  | S f =>
    if ok_lo && ok_hi then
      match c with
      | Lt => (lo, t)
      | Gt => (hi, t)
      | Eq => if Z.even lo then (lo, t) else (hi, t)
      end
    else if ok_lo then (lo, t)
    else if ok_hi then (hi, t)
    else shortest y vn vd N f (k + 1)
  end.

(** Drop the trailing zeros of [s], keeping the value [s * 10^t]. *)
Fixpoint strip (fuel : nat) (s t : Z) : Z * Z :=
  match fuel with
  | O => (s, t)
  | S f => if (s mod 10 =? 0) && (0 <? s) then strip f (s / 10) (t + 1) else (s, t)
  end.

(** Steps 6 to 12 of [Number::toString(x, 10)] for the digits [ds] of
    [s] ([k] of them) and the exponent [n]. *)
Definition format (ds : string) (n : Z) : string :=
  let k := Z.of_nat (String.length ds) in
  if (k <=? n) && (n <=? 21) then ds ++ zeros (Z.to_nat (n - k))
  else if (0 <? n) && (n <=? 21) then
    substring 0 (Z.to_nat n) ds ++ "." ++ substring (Z.to_nat n) (Z.to_nat (k - n)) ds
  else if (-6 <? n) && (n <=? 0) then "0." ++ zeros (Z.to_nat (- n)) ++ ds
  else
    let e := n - 1 in
    let sgn := if e >=? 0 then "+" else "-" in
    let mant := if k =? 1 then ds
                else substring 0 1 ds ++ "." ++ substring 1 (Z.to_nat (k - 1)) ds in
    mant ++ "e" ++ sgn ++ digits_of (Z.abs e).

(** [Number::toString(x, 10)] for the pattern [x]. *)
Definition to_string (x : Z) : string :=
  let y := x mod sign_bit in
  let neg := sign_bit <=? x in
  if infinity_bits <? y then "NaN"
  else if y =? 0 then "0"
  else
    let body :=
      if y =? infinity_bits then "Infinity"
      else
        let biased := y / two52 in
        let f := y mod two52 in
        let m := if biased =? 0 then f else f + two52 in
        let e := if biased =? 0 then -1074 else biased - 1075 in
        let vn := if e >=? 0 then m * 2 ^ e else m in
        let vd := if e >=? 0 then 1 else 2 ^ (- e) in
        let N := least_pow10 vn vd 700 (-330) in
        let '(s, t) := shortest y vn vd N 17 1 in
        let '(s, t) := strip 20 s t in
        let ds := digits_of s in
        format ds (t + Z.of_nat (String.length ds)) in
    if neg then "-" ++ body else body.

(** ToBoolean: [false] for [+0], [-0] and [NaN]. *)
Definition truthy (x : Z) : bool :=
  let y := x mod sign_bit in
  negb (y =? 0) && negb (infinity_bits <? y).

End Num.

(** Values produced by [JSON.parse]. *)
Inductive json : Type :=
| JNull
| JBool (b : bool)
| JNum (x : Z)
| JStr (s : string)
| JArr (l : list json)
| JObj (fields : list (string * json)).

(** A JavaScript value that may be [undefined] ([None]). *)
Definition jsv := option json.

(** ToBoolean. *)
Definition truthy (v : jsv) : bool :=
  match v with
  | None => false
  | Some JNull => false
  | Some (JBool b) => b
  | Some (JNum x) => Num.truthy x
  | Some (JStr s) => negb (String.eqb s EmptyString)
  | Some (JArr _) => true
  | Some (JObj _) => true
  end.

(** [a || b]. *)
Definition js_or (a b : jsv) : jsv := if truthy a then a else b.

(** Property read [v.name] / [v.patterns]: only objects carry these keys
    (no builtin prototype defines [name] or [patterns]); for a duplicated key
    [JSON.parse] keeps the last binding. *)
Definition own_prop (v : json) (k : string) : jsv :=
  match v with
  | JObj fs =>
      fold_left (fun acc '(k', x) => if String.eqb k k' then Some x else acc) fs None
  | _ => None
  end.

(** SameValueZero as used by [Set] and [Map]: primitives by value; arrays and
    objects are distinct objects (every one produced by [JSON.parse] is
    fresh). *)
Definition same_value_zero (a b : json) : bool :=
  match a, b with
  | JNull, JNull => true
  | JBool x, JBool y => Bool.eqb x y
  | JNum x, JNum y => Z.eqb x y
  | JStr x, JStr y => String.eqb x y
  | _, _ => false
  end.

(** The insertion-ordered contents of [new Set(iterable)]. *)
Fixpoint set_add (x : json) (l : list json) : list json :=
  match l with
  | [] => [x]
  | y :: l' => if same_value_zero x y then l else y :: set_add x l'
  end.

Definition set_of_list (l : list json) : list json :=
  fold_left (fun acc x => set_add x acc) l [].

Fixpoint chars_of (s : string) : list json :=
  match s with
  | EmptyString => []
  | String c s' => JStr (String c EmptyString) :: chars_of s'
  end.

(** [new Set(v)]: strings iterate by character, arrays by element; any other
    value is not iterable and raises [TypeError]. *)
Definition new_Set (v : json) : res (list json) :=
  match v with
  | JStr s => Ok (set_of_list (chars_of s))
  | JArr l => Ok (set_of_list l)
  | _ => Throw TypeError
  end.

(** ToString, as [new RegExp(pattern)] applies it to a pattern. *)
Fixpoint js_to_string (v : json) : string :=
  match v with
  | JNull => "null"
  | JBool true => "true"
  | JBool false => "false"
  | JNum x => Num.to_string x
  | JStr s => s
  | JArr l =>
      (fix join (l : list json) : string :=
         match l with
         | [] => EmptyString
         | [x] => match x with JNull => EmptyString | _ => js_to_string x end
         | x :: l' => (match x with JNull => EmptyString | _ => js_to_string x end)
                        ++ "," ++ join l'
         end) l
  | JObj _ => "[object Object]"
  end.

(** ** [JSON.parse] *)

Module Json.

Definition is_ws (c : ascii) : bool :=
  match c with
  | " "%char | "009"%char | "010"%char | "013"%char => true
  | _ => false
  end.

Fixpoint skip_ws (s : list ascii) : list ascii :=
  match s with
  | c :: s' => if is_ws c then skip_ws s' else s
  | [] => []
  end.

Definition is_digit (c : ascii) : bool :=
  (48 <=? nat_of_ascii c)%nat && (nat_of_ascii c <=? 57)%nat.

(** The longest prefix of digits. *)
Fixpoint span_digits (s : list ascii) : list ascii * list ascii :=
  match s with
  | c :: s' => if is_digit c then let '(ds, r) := span_digits s' in (c :: ds, r) else ([], s)
  | [] => ([], [])
  end.

Definition Z_of_digits (ds : list ascii) : Z :=
  fold_left (fun acc c => (acc * 10 + Z.of_nat (nat_of_ascii c - 48))%Z) ds 0%Z.

(** A number: [-? (0 | [1-9][0-9]* ) (. [0-9]+)? ([eE] [+-]? [0-9]+)?], as
    the pattern of its Number value (see [Num]; [-0] gives [+0]). *)
Definition number (s : list ascii) : option (Z * list ascii) :=
  let '(neg, s1) := match s with "-"%char :: r => (true, r) | _ => (false, s) end in
  let int :=
    match s1 with
    | "0"%char :: r => Some (["0"%char], r)
    | c :: _ => if is_digit c then Some (span_digits s1) else None
    | [] => None
    end in
  match int with
  | None => None
  | Some (di, r1) =>
    let frac :=
      match r1 with
      | "."%char :: r => match span_digits r with
                         | ([], _) => None
                         | (df, r2) => Some (df, r2)
                         end
      | _ => Some ([], r1)
      end in
    match frac with
    | None => None
    | Some (df, r2) =>
      let ex :=
        match r2 with
        | e :: r => if Ascii.eqb e "e"%char || Ascii.eqb e "E"%char then
                      let '(sg, r') := match r with
                                       | "+"%char :: r' => (1%Z, r')
                                       | "-"%char :: r' => ((-1)%Z, r')
                                       | _ => (1%Z, r)
                                       end in
                      match span_digits r' with
                      | ([], _) => None
                      | (dx, r3) => Some ((sg * Z_of_digits dx)%Z, r3)
                      end
                    else Some (0%Z, r2)
        | [] => Some (0%Z, r2)
        end in
      match ex with
      | None => None
      | Some (x, r3) =>
        let M := Z_of_digits (di ++ df) in
        let mag := Num.decimal_bits M (x - Z.of_nat (length df))%Z
                                      (Z.of_nat (length (di ++ df))) in
        Some ((if neg && negb (mag =? 0)%Z then mag + Num.sign_bit else mag)%Z, r3)
      end
    end
  end.

Definition hex_digit (c : ascii) : option nat :=
  let n := nat_of_ascii c in
  if (48 <=? n) && (n <=? 57) then Some (n - 48)
  else if (97 <=? n) && (n <=? 102) then Some (n - 87)
  else if (65 <=? n) && (n <=? 70) then Some (n - 55)
  else None.

(** String body after the opening quote.  Strings of the model hold 8-bit
    code units: a [\u] escape of a code unit below 256 is that character;
    a larger code unit cannot be represented, so the model covers only
    texts without such escapes (as it covers only text whose characters
    are below 256 everywhere). *)
Fixpoint str_body (acc : list ascii) (s : list ascii) : option (string * list ascii) :=
  match s with
  | [] => None
  | "034"%char :: s' => Some (string_of_list_ascii (rev acc), s')
  | "\"%char :: e :: s' =>
      match e with
      | "034"%char | "\"%char | "/"%char => str_body (e :: acc) s'
      | "n"%char => str_body ("010"%char :: acc) s'
      | "t"%char => str_body ("009"%char :: acc) s'
      | "r"%char => str_body ("013"%char :: acc) s'
      | "b"%char => str_body ("008"%char :: acc) s'
      | "f"%char => str_body ("012"%char :: acc) s'
      | "u"%char =>
          match s' with
          | h1 :: h2 :: h3 :: h4 :: s'' =>
              match hex_digit h1, hex_digit h2, hex_digit h3, hex_digit h4 with
              | Some a, Some b, Some c, Some d =>
                  let u := a * 4096 + b * 256 + c * 16 + d in
                  if u <? 256 then str_body (ascii_of_nat u :: acc) s'' else None
              | _, _, _, _ => None
              end
          | _ => None
          end
      | _ => None
      end
  | c :: s' => if (nat_of_ascii c <? 32)%nat then None else str_body (c :: acc) s'
  end.

Fixpoint value (fuel : nat) (s : list ascii) : option (json * list ascii) :=
  match fuel with
  | 0 => None
  | S f =>
    match skip_ws s with
    | "n"%char :: "u"%char :: "l"%char :: "l"%char :: r => Some (JNull, r)
    | "t"%char :: "r"%char :: "u"%char :: "e"%char :: r => Some (JBool true, r)
    | "f"%char :: "a"%char :: "l"%char :: "s"%char :: "e"%char :: r => Some (JBool false, r)
    | "034"%char :: r =>
        match str_body [] r with Some (x, r') => Some (JStr x, r') | None => None end
    | "["%char :: r =>
        match skip_ws r with
        | "]"%char :: r' => Some (JArr [], r')
        | _ =>
          (fix elems (g : nat) (acc : list json) (r : list ascii) :=
             match g with
             | 0 => None
             | S g' =>
               match value f r with
               | Some (x, r1) =>
                   match skip_ws r1 with
                   | ","%char :: r2 => elems g' (x :: acc) r2
                   | "]"%char :: r2 => Some (JArr (rev (x :: acc)), r2)
                   | _ => None
                   end
               | None => None
               end
             end) f [] r
        end
    | "{"%char :: r =>
        match skip_ws r with
        | "}"%char :: r' => Some (JObj [], r')
        | _ =>
          (fix members (g : nat) (acc : list (string * json)) (r : list ascii) :=
             match g with
             | 0 => None
             | S g' =>
               match skip_ws r with
               | "034"%char :: r0 =>
                 match str_body [] r0 with
                 | Some (k, r1) =>
                   match skip_ws r1 with
                   | ":"%char :: r2 =>
                     match value f r2 with
                     | Some (x, r3) =>
                       match skip_ws r3 with
                       | ","%char :: r4 => members g' ((k, x) :: acc) r4
                       | "}"%char :: r4 => Some (JObj (rev ((k, x) :: acc)), r4)
                       | _ => None
                       end
                     | None => None
                     end
                   | _ => None
                   end
                 | None => None
                 end
               | _ => None
               end
             end) f [] r
        end
    | (c :: _) as s0 =>
        if is_digit c || Ascii.eqb c "-"%char then
          match number s0 with Some (x, r) => Some (JNum x, r) | None => None end
        else None
    | [] => None
    end
  end.

End Json.

(** [JSON.parse(str)]: [None] is the thrown [SyntaxError]. *)
Definition JSON_parse (str : string) : option json :=
  let s := list_ascii_of_string str in
  match Json.value (S (length s)) s with
  | Some (v, r) => match Json.skip_ws r with [] => Some v | _ => None end
  | None => None
  end.


(** ** Regular-expression engines and [RegExp] objects *)

(** A regular-expression engine: [re_compile source ignoreCase] is
    [new RegExp(source, flags)] ([None] is the thrown [SyntaxError]), and
    [re_match_at r s p] runs the compiled pattern anchored at position [p]
    of [s], giving the end index of the match. *)
Record RegExpEngine : Type := {
  re_t : Type;
  re_compile : string -> bool -> option re_t;
  re_match_at : re_t -> string -> nat -> option nat
}.

(** What ECMAScript guarantees of a pattern matcher: a match starting at a
    position [p] of the input ends between [p] and the end of the input. *)
Definition engine_bounded (E : RegExpEngine) : Prop :=
  forall r s p e, p <= String.length s -> re_match_at E r s p = Some e -> p <= e <= String.length s.

Section Objects.
Context {E : RegExpEngine}.

(** A global ([g] flag) [RegExp] object. *)
Record RegExp : Type := mkRegExp {
  re_prog : re_t E;
  lastIndex : nat
}.

(** A [Dictionary] object.  [d_id] is its identity (results refer to it);
    [d_patterns] is the [Set] of patterns in insertion order; [d_regExpMaps]
    is the [Map] from the case-sensitivity flag to the [Map] from pattern to
    [RegExp], in insertion order. *)
Record Dictionary : Type := mkDictionary {
  d_id : nat;
  d_name : json;
  d_patterns : list json;
  d_regExpMaps : list (bool * list (json * RegExp))
}.

End Objects.
Arguments RegExp E : clear implicits.
Arguments Dictionary E : clear implicits.

(** [Dictionary~Options]. *)
Record DictionaryOptions : Type := {
  opt_name : jsv;
  opt_patterns : jsv
}.

Definition no_options : DictionaryOptions := {| opt_name := None; opt_patterns := None |}.

Section DictionaryConstruction.
Context {E : RegExpEngine}.

(** [new Dictionary(options)], allocated with identity [id]:
<<
    this[_name] = options.name || '<unknown>';
    this[_patterns] = new Set(options.patterns || []);
    this[_regExpMaps] = new Map();
>> *)
Definition new_Dictionary (id : nat) (options : DictionaryOptions) : res (Dictionary E) :=
  let name := match js_or (opt_name options) (Some (JStr "<unknown>")) with
              | Some v => v
              | None => JStr "<unknown>"
              end in
  let pats := match js_or (opt_patterns options) (Some (JArr [])) with
              | Some v => v
              | None => JArr []
              end in
  ps <- new_Set pats ;;
  Ok {| d_id := id; d_name := name; d_patterns := ps; d_regExpMaps := [] |}.

(** [Dictionary.parse(str, defaults)]; [None] for [str] is [null] or
    [undefined], and an [Ok None] result is the returned [null].
    [Dictionary_of_data] is the part after [JSON.parse], applied to the
    parsed [data].
<<
    if (str == null) return null;
    const data = JSON.parse(str);
    if (data == null) return null;
    if (Array.isArray(data)) return new Dictionary({ patterns: data });
    return new Dictionary({
      name: data.name || defaults.name,
      patterns: data.patterns || defaults.patterns
    });
>> *)
Definition Dictionary_of_data (id : nat) (data : json) (defaults : DictionaryOptions)
  : res (option (Dictionary E)) :=
  match data with
  | JNull => Ok None
  | JArr l =>
      d <- new_Dictionary id {| opt_name := None; opt_patterns := Some (JArr l) |} ;;
      Ok (Some d)
  | _ =>
      d <- new_Dictionary id {| opt_name := js_or (own_prop data "name") (opt_name defaults);
                                opt_patterns := js_or (own_prop data "patterns")
                                                      (opt_patterns defaults) |} ;;
      Ok (Some d)
  end.

Definition Dictionary_parse (id : nat) (str : option string) (defaults : DictionaryOptions)
  : res (option (Dictionary E)) :=
  match str with
  | None => Ok None
  | Some s =>
    match JSON_parse s with
    | None => Throw SyntaxError
    | Some data => Dictionary_of_data id data defaults
    end
  end.

(** [dictionary.has(pattern)]. *)
Definition Dictionary_has (d : Dictionary E) (pattern : json) : bool :=
  existsb (same_value_zero pattern) (d_patterns d).

(** [dictionary.toString()]: [this[_name] || super.toString()]. *)
Definition Dictionary_toString (d : Dictionary E) : json :=
  if truthy (Some (d_name d)) then d_name d else JStr "[object Object]".

End DictionaryConstruction.

(** ** [RegExp.prototype.exec] and [Dictionary#search] *)

Section Search.
Context {E : RegExpEngine}.

(** The search loop of RegExpBuiltinExec: try every start position from [p]
    on, [k] positions beyond [p] at most. *)
Fixpoint scan (r : re_t E) (s : string) (p k : nat) : option (nat * nat) :=
  match re_match_at E r s p with
  | Some e => Some (p, e)
  | None =>
    match k with
    | 0 => None
    | S k' => scan r s (S p) k'
    end
  end.

(** [regExp.exec(s)] on a global [RegExp]: the match's start and end, and
    the object with its updated [lastIndex]. *)
Definition exec (re : RegExp E) (s : string) : option (nat * nat) * RegExp E :=
  let li := lastIndex re in
  if String.length s <? li then (None, mkRegExp (re_prog re) 0)
  else match scan (re_prog re) s li (String.length s - li) with
       | None => (None, mkRegExp (re_prog re) 0)
       | Some (i, e) => (Some (i, e), mkRegExp (re_prog re) e)
       end.

Fixpoint assoc_bool {A} (k : bool) (l : list (bool * A)) : option A :=
  match l with
  | [] => None
  | (k', a) :: l' => if Bool.eqb k k' then Some a else assoc_bool k l'
  end.

Fixpoint update_bool {A} (k : bool) (f : A -> A) (l : list (bool * A)) : list (bool * A) :=
  match l with
  | [] => []
  | (k', a) :: l' => if Bool.eqb k k' then (k', f a) :: l' else (k', a) :: update_bool k f l'
  end.

(** Replace the [RegExp] of the [n]-th entry of a pattern map. *)
Fixpoint set_entry (n : nat) (re : RegExp E) (m : list (json * RegExp E)) : list (json * RegExp E) :=
  match m, n with
  | [], _ => []
  | (p, _) :: m', 0 => (p, re) :: m'
  | e :: m', S n' => e :: set_entry n' re m'
  end.

Definition with_regExpMaps (d : Dictionary E) (ms : list (bool * list (json * RegExp E))) : Dictionary E :=
  {| d_id := d_id d; d_name := d_name d; d_patterns := d_patterns d; d_regExpMaps := ms |}.

(** The loop of [_createRegExpMap] that compiles every pattern. *)
Fixpoint compile_all (flagsI : bool) (ps : list json) : res (list (json * RegExp E)) :=
  match ps with
  | [] => Ok []
  | p :: ps' =>
    match re_compile E (js_to_string p) flagsI with
    | None => Throw SyntaxError
    | Some r => m <- compile_all flagsI ps' ;; Ok ((p, mkRegExp r 0) :: m)
    end
  end.

(** [dictionary[_createRegExpMap](caseSensitive)]:
<<
    let regExpMap = this[_regExpMaps].get(caseSensitive);
    if (regExpMap) return regExpMap;
    const flags = caseSensitive ? 'g' : 'gi';
    regExpMap = new Map();
    for (const pattern of this[_patterns])
      regExpMap.set(pattern, new RegExp(pattern, flags));
    this[_regExpMaps].set(caseSensitive, regExpMap);
    return regExpMap;
>> *)
Definition createRegExpMap (d : Dictionary E) (caseSensitive : bool)
  : res (list (json * RegExp E) * Dictionary E) :=
  match assoc_bool caseSensitive (d_regExpMaps d) with
  | Some m => Ok (m, d)
  | None =>
      m <- compile_all (negb caseSensitive) (d_patterns d) ;;
      Ok (m, with_regExpMaps d ((d_regExpMaps d ++ [(caseSensitive, m)])%list))
  end.

(** [Searcherer~Result]; [r_dictionary] is the identity of the dictionary. *)
Record Result : Type := {
  r_columnNumber : nat;
  r_dictionary : nat;
  r_line : string;
  r_lineNumber : nat;
  r_match : string;
  r_pattern : json
}.

(** The part of [Searcherer~SearchContext] that [Dictionary#search] reads. *)
Record SearchContext : Type := {
  c_line : string;
  c_lineNumber : nat;
  c_caseSensitive : bool
}.

(** The state of the generator object returned by [dictionary.search(context)]:
    not started, suspended at the [yield] inside the [while] loop of the
    [k]-th entry of the pattern map, or completed. *)
Inductive gen : Type :=
| GStart (ctx : SearchContext)
| GLoop (ctx : SearchContext) (k : nat)
| GDone.

Inductive step_result : Type :=
| Yield (r : Result)
| Finished
| Raised (e : js_error).

(** Resume the [for ... of regExpMap] loop at entry [k]; [rest] is the
    remainder of the map from entry [k] on. *)
Fixpoint loop_from (d : Dictionary E) (ctx : SearchContext) (k : nat)
    (rest : list (json * RegExp E)) : step_result * gen * Dictionary E :=
  match rest with
  | [] => (Finished, GDone, d)
  | (pattern, re) :: rest' =>
    let cs := c_caseSensitive ctx in
    let '(m, re') := exec re (c_line ctx) in
    let d' := with_regExpMaps d
                (update_bool cs (set_entry k re') (d_regExpMaps d)) in
    match m with
    | Some (i, e) =>
        (Yield {| r_columnNumber := i;
                  r_dictionary := d_id d;
                  r_line := c_line ctx;
                  r_lineNumber := c_lineNumber ctx;
                  r_match := substring i (e - i) (c_line ctx);
                  r_pattern := pattern |}, GLoop ctx k, d')
    | None => loop_from d' ctx (S k) rest'
    end
  end.

(** One call of [next()] on the generator of [*search(context)]:
<<
    const regExpMap = this[_createRegExpMap](Boolean(context.options.caseSensitive));
    for (const [ pattern, regExp ] of regExpMap) {
      let match;
      while ((match = regExp.exec(context.line)) != null) {
        yield { columnNumber: match.index, dictionary: this, line: context.line,
                lineNumber: context.lineNumber, match: match[0], pattern };
      }
    }
>> *)
Definition gen_next (g : gen) (d : Dictionary E) : step_result * gen * Dictionary E :=
  match g with
  | GDone => (Finished, GDone, d)
  | GStart ctx =>
    match createRegExpMap d (c_caseSensitive ctx) with
    | Throw e => (Raised e, GDone, d)
    | Ok (m, d1) => loop_from d1 ctx 0 m
    end
  | GLoop ctx k =>
    match assoc_bool (c_caseSensitive ctx) (d_regExpMaps d) with
    | None => (Finished, GDone, d)
    | Some m => loop_from d ctx k (skipn k m)
    end
  end.

(** [dictionary.search(context)] itself only creates the generator. *)
Definition Dictionary_search (ctx : SearchContext) : gen := GStart ctx.

(** Consume a generator to its end ([for ... of]), with at most [fuel] calls
    of [next()]: [None] when the generator has not finished within [fuel]
    calls; otherwise the results yielded, the dictionary after, and the error
    thrown, if any. *)
Fixpoint consume (fuel : nat) (g : gen) (d : Dictionary E)
  : option (list Result * Dictionary E * option js_error) :=
  match fuel with
  | 0 => None
  | S f =>
    match gen_next g d with
    | (Yield r, g', d') =>
        match consume f g' d' with
        | Some (rs, d'', err) => Some (r :: rs, d'', err)
        | None => None
        end
    | (Finished, _, d') => Some ([], d', None)
    | (Raised e, _, d') => Some ([], d', Some e)
    end
  end.

(** Take the first [n] results of a generator and abandon it. *)
Fixpoint take (n : nat) (g : gen) (d : Dictionary E) : list Result * gen * Dictionary E :=
  match n with
  | 0 => ([], g, d)
  | S n' =>
    match gen_next g d with
    | (Yield r, g', d') =>
        let '(rs, g'', d'') := take n' g' d' in (r :: rs, g'', d'')
    | (_, g', d') => ([], g', d')
    end
  end.

End Search.

(** ** [Searcherer] *)

(** [value.split(/\r\n?|\n/g)]. *)
Fixpoint split_aux (s : string) (cur : string) : list string :=
  match s with
  | EmptyString => [cur]
  | String c rest =>
    if Ascii.eqb c "013"%char then
      match rest with
      | String c2 rest2 =>
          if Ascii.eqb c2 "010"%char then cur :: split_aux rest2 EmptyString
          else cur :: split_aux rest EmptyString
      | EmptyString => cur :: split_aux rest EmptyString
      end
    else if Ascii.eqb c "010"%char then cur :: split_aux rest EmptyString
    else split_aux rest (cur ++ String c EmptyString)
  end.

Definition split_lines (s : string) : list string := split_aux s EmptyString.

Section Searcherer.
Context {E : RegExpEngine}.

(** [Searcherer~SearchFileOptions]: [filter] is [Some f] when
    [typeof options.filter === 'function']; [caseSensitive] is
    [Boolean(options.caseSensitive)]. *)
Record SearchOptions : Type := {
  opt_caseSensitive : bool;
  opt_filter : option (Dictionary E -> bool);
  opt_encoding : option string
}.

(** Emitted events, in order (no listener is registered). *)
Inductive event : Type :=
| EvSearch (value : string)
| EvResult (r : Result)
| EvEnd (results : list Result).

(** A [Searcherer]: its [Set] of dictionaries in insertion order, and the
    events it has emitted. *)
Record Searcherer : Type := {
  s_dictionaries : list (Dictionary E);
  s_events : list event
}.

Definition emit (S : Searcherer) (ev : event) : Searcherer :=
  {| s_dictionaries := s_dictionaries S; s_events := (s_events S ++ [ev])%list |}.

(** [this[_dictionaries].add(dictionary)]: [Set.prototype.add] keeps an
    already present object where it is. *)
Definition add_dictionary_to_set (S : Searcherer) (d : Dictionary E) : Searcherer :=
  if existsb (fun d' => Nat.eqb (d_id d') (d_id d)) (s_dictionaries S) then S
  else {| s_dictionaries := (s_dictionaries S ++ [d])%list; s_events := s_events S |}.

(** The argument of [addDictionary]: a string or an array (the
    [typeof dictionary === 'string' || Array.isArray(dictionary)] case), or
    a [Dictionary] instance. *)
Inductive DictionaryArg : Type :=
| DArgString (s : string)
| DArgArray (l : list json)
| DArgDictionary (d : Dictionary E).

(** [searcherer.addDictionary(dictionary)]; [this[_dictionaryType]] is
    [Dictionary] (no [dictionaryType] option is modelled), and a dictionary
    built here is allocated with identity [id].
<<
    if (typeof dictionary === 'string' || Array.isArray(dictionary)) {
      const DictionaryImpl = this[_dictionaryType];
      dictionary = new DictionaryImpl({ patterns: dictionary });
    }
    this[_dictionaries].add(dictionary);
    return dictionary;
>> *)
Definition addDictionary (id : nat) (S : Searcherer) (dictionary : DictionaryArg)
  : res (Searcherer * Dictionary E) :=
  res_bind
    (match dictionary with
     | DArgString str => new_Dictionary id {| opt_name := None; opt_patterns := Some (JStr str) |}
     | DArgArray l => new_Dictionary id {| opt_name := None; opt_patterns := Some (JArr l) |}
     | DArgDictionary d => Ok d
     end)
    (fun d => Ok (add_dictionary_to_set S d, d)).

(** ToBoolean of an [addDictionary] argument. *)
Definition DictionaryArg_truthy (a : DictionaryArg) : bool :=
  match a with
  | DArgString str => negb (String.eqb str EmptyString)
  | _ => true
  end.

(** [new Searcherer({ dictionary })]; [None] is an absent [dictionary].
<<
    this[_dictionaries] = new Set();
    this[_dictionaryType] = options.dictionaryType || Dictionary;
    if (options.dictionary) this.addDictionary(options.dictionary);
>> *)
Definition new_Searcherer (id : nat) (dictionary : option DictionaryArg) : res Searcherer :=
  let S0 := {| s_dictionaries := []; s_events := [] |} in
  match dictionary with
  | Some a => if DictionaryArg_truthy a then res_bind (addDictionary id S0 a) (fun p => Ok (fst p))
              else Ok S0
  | None => Ok S0
  end.

(** [dictionary.name === name]: on the values modelled, strict equality
    and SameValueZero agree (no [NaN], no [-0]; objects are distinct). *)
Definition js_strict_eq (a b : json) : bool := same_value_zero a b.

(** [searcherer.findDictionary(name)]:
<<
    for (const dictionary of this[_dictionaries])
      if (dictionary.name === name) return dictionary;
    return null;
>> *)
Fixpoint find_dictionary_in (name : json) (ds : list (Dictionary E)) : option (Dictionary E) :=
  match ds with
  | [] => None
  | d :: ds' => if js_strict_eq (d_name d) name then Some d else find_dictionary_in name ds'
  end.

Definition findDictionary (S : Searcherer) (name : json) : option (Dictionary E) :=
  find_dictionary_in name (s_dictionaries S).

(** The [for (const dictionary of dictionaries)] loop of [_searchLine]:
    every dictionary's generator is consumed, each result is pushed and a
    ["result"] event emitted; the dictionaries are updated in place.  [None]
    when a generator does not finish within [fuel] steps. *)
Fixpoint search_dicts (fuel : nat) (ctx : SearchContext) (ds : list (Dictionary E))
    (evs : list event) (acc : list Result)
  : option (list (Dictionary E) * list event * list Result * option js_error) :=
  match ds with
  | [] => Some ([], evs, acc, None)
  | d :: ds' =>
    match consume fuel (Dictionary_search ctx) d with
    | None => None
    | Some (rs, d', Some e) =>
        Some (d' :: ds', (evs ++ map EvResult rs)%list, (acc ++ rs)%list, Some e)
    | Some (rs, d', None) =>
        match search_dicts fuel ctx ds' ((evs ++ map EvResult rs)%list) ((acc ++ rs)%list) with
        | Some (ds'', evs', acc', err) => Some (d' :: ds'', evs', acc', err)
        | None => None
        end
    end
  end.

(** [searcherer[_searchLine](context)]:
<<
    let dictionaries = this[_dictionaries];
    const filter = context.options.filter;
    if (typeof filter === 'function')
      dictionaries = dictionaries.filter((dictionary) => filter(dictionary));
    for (const dictionary of dictionaries) { ... }
>>
    [this[_dictionaries]] is a [Set], which has no [filter] method: calling
    it raises [TypeError]. *)
Definition searchLine (fuel : nat) (S : Searcherer) (opts : SearchOptions)
    (lineNumber : nat) (line : string) (acc : list Result)
  : option (Searcherer * list Result * option js_error) :=
  match opt_filter opts with
  | Some _ => Some (S, acc, Some TypeError)
  | None =>
    let ctx := {| c_line := line; c_lineNumber := lineNumber;
                  c_caseSensitive := opt_caseSensitive opts |} in
    match search_dicts fuel ctx (s_dictionaries S) (s_events S) acc with
    | Some (ds, evs, acc', err) =>
        Some ({| s_dictionaries := ds; s_events := evs |}, acc', err)
    | None => None
    end
  end.

(** [lines.forEach((line, lineNumber) => this[_searchLine](...))]. *)
Fixpoint search_lines (fuel : nat) (S : Searcherer) (opts : SearchOptions)
    (lineNumber : nat) (lines : list string) (acc : list Result)
  : option (Searcherer * list Result * option js_error) :=
  match lines with
  | [] => Some (S, acc, None)
  | line :: lines' =>
    match searchLine fuel S opts lineNumber line acc with
    | Some (S', acc', None) => search_lines fuel S' opts (Datatypes.S lineNumber) lines' acc'
    | other => other
    end
  end.

(** [searcherer.search(value, options)]:
<<
    if (!value) return [];
    this.emit('search', { options, value });
    const lines = value.split(/\r\n?|\n/g);
    const results = [];
    lines.forEach((line, lineNumber) => this[_searchLine]({ ... }));
    this.emit('end', { options, results, value });
    return results;
>> *)
Definition search (fuel : nat) (S : Searcherer) (value : option string) (opts : SearchOptions)
  : option (res (list Result) * Searcherer) :=
  match value with
  | None | Some EmptyString => Some (Ok [], S)
  | Some v =>
    let S1 := emit S (EvSearch v) in
    match search_lines fuel S1 opts 0 (split_lines v) [] with
    | None => None
    | Some (S2, _, Some e) => Some (Throw e, S2)
    | Some (S2, results, None) => Some (Ok results, emit S2 (EvEnd results))
    end
  end.

(** [Searcherer.search(value, dictionary, options)]:
<<
    const searcherer = new Searcherer({ dictionary });
    return searcherer.search(value, options);
>> *)
Definition Searcherer_search (fuel id : nat) (value : option string)
    (dictionary : option DictionaryArg) (opts : SearchOptions) : option (res (list Result)) :=
  match new_Searcherer id dictionary with
  | Throw e => Some (Throw e)
  | Ok searcherer => option_map fst (search fuel searcherer value opts)
  end.

End Searcherer.
Arguments SearchOptions E : clear implicits.
Arguments DictionaryArg E : clear implicits.
Arguments Searcherer E : clear implicits.

(** ** Reading files *)




Section Files.
Context {E : RegExpEngine}.

(** The file system: the bytes of each readable file. *)
Variable fs : string -> option string.

(** [iconv.decode(buffer, encoding)]. *)
Variable decode : string -> string -> res string.

(** [util.promisify(fs.readFile)(filePath)], awaited. *)
Definition readFile (filePath : string) : res string :=
  match fs filePath with
  | Some buffer => Ok buffer
  | None => Throw IOError
  end.

(** [fs.readFile(filePath)] called without its callback argument: Node.js
    rejects the call with [TypeError] (ERR_INVALID_ARG_TYPE) before reading
    anything. *)
Definition fs_readFile_without_callback (filePath : string) : res string :=
  Throw TypeError.

(** [searcherer[_searchFile](buffer, options)]:
<<
    const value = iconv.decode(buffer, options.encoding || 'utf8');
    return this.search(value, options);
>> *)
Definition searchFile_ (fuel : nat) (S : Searcherer E) (buffer : string) (opts : SearchOptions E)
  : option (res (list Result) * Searcherer E) :=
  let encoding := match opt_encoding opts with
                  | Some enc => if String.eqb enc EmptyString then "utf8" else enc
                  | None => "utf8"
                  end in
  match decode buffer encoding with
  | Throw e => Some (Throw e, S)
  | Ok value => search fuel S (Some value) opts
  end.

(** [await searcherer.searchFile(filePath, options)]:
<<
    const buffer = await readFile(filePath);
    return this[_searchFile](buffer, options);
>> *)
Definition searchFile (fuel : nat) (S : Searcherer E) (filePath : string) (opts : SearchOptions E)
  : option (res (list Result) * Searcherer E) :=
  match readFile filePath with
  | Throw e => Some (Throw e, S)
  | Ok buffer => searchFile_ fuel S buffer opts
  end.

(** [searcherer.searchFileSync(filePath, options)]:
<<
    const buffer = fs.readFile(filePath);
    return this[_searchFile](buffer, options);
>> *)
Definition searchFileSync (fuel : nat) (S : Searcherer E) (filePath : string) (opts : SearchOptions E)
  : option (res (list Result) * Searcherer E) :=
  match fs_readFile_without_callback filePath with
  | Throw e => Some (Throw e, S)
  | Ok buffer => searchFile_ fuel S buffer opts
  end.





End Files.

(** ** The highlighted line of the output styles

    [DefaultStyle#render] and [SimpleStyle#render] build the same line
    cell for each result; [dim], [bgYellow] and [black] are the [chalk]
    styles.
<<
    let line = chalk.dim(result.line.substring(0, result.columnNumber));
    line += chalk.bgYellow(chalk.black(result.match));
    line += chalk.dim(result.line.substring(result.columnNumber + result.match.length));
>> *)

Section Styles.
Variables dim bgYellow black : string -> string.

(** [s.substring(i)]. *)
Definition js_substring_from (s : string) (i : nat) : string :=
  substring i (String.length s - i) s.

Definition highlighted_line (r : Result) : string :=
  dim (substring 0 (r_columnNumber r) (r_line r)) ++
  bgYellow (black (r_match r)) ++
  dim (js_substring_from (r_line r) (r_columnNumber r + String.length (r_match r))).

End Styles.

(** ** A concrete engine for a fragment of the JavaScript pattern syntax

    Literal characters, [.], [*], grouping [( )] and alternation [|], with
    the backtracking order of the ECMAScript matcher (greedy [*], left
    alternative first, an iteration of [*] may not match the empty string).
    Unbalanced parentheses and a [*] with nothing to repeat are syntax
    errors, as in JavaScript; the other special characters
    ([+ ? [ ] { } \ ^ $]) are outside the fragment and rejected. *)

Module Mini.

Inductive rx : Type :=
| REps
| RChar (c : ascii)
| RAny
| RCat (a b : rx)
| RAlt (a b : rx)
| RStar (a : rx)
| RGroup (a : rx).

Definition special (c : ascii) : bool :=
  existsb (Ascii.eqb c) (list_ascii_of_string "+?[]{}\^$*)|").

Fixpoint p_alt (fuel : nat) (s : list ascii) : option (rx * list ascii) :=
  match fuel with
  | 0 => None
  | S f =>
    match p_seq f s with
    | Some (r, "|"%char :: rest) =>
        match p_alt f rest with
        | Some (r2, rest') => Some (RAlt r r2, rest')
        | None => None
        end
    | other => other
    end
  end
with p_seq (fuel : nat) (s : list ascii) : option (rx * list ascii) :=
  match fuel with
  | 0 => None
  | S f =>
    match s with
    | [] => Some (REps, [])
    | ")"%char :: _ | "|"%char :: _ => Some (REps, s)
    | _ =>
      match p_term f s with
      | Some (t, rest) =>
          match p_seq f rest with
          | Some (r, rest') => Some (RCat t r, rest')
          | None => None
          end
      | None => None
      end
    end
  end
with p_term (fuel : nat) (s : list ascii) : option (rx * list ascii) :=
  match fuel with
  | 0 => None
  | S f =>
    match p_atom f s with
    | Some (a, "*"%char :: rest) => Some (RStar a, rest)
    | other => other
    end
  end
with p_atom (fuel : nat) (s : list ascii) : option (rx * list ascii) :=
  match fuel with
  | 0 => None
  | S f =>
    match s with
    | "("%char :: rest =>
        match p_alt f rest with
        | Some (r, ")"%char :: rest') => Some (RGroup r, rest')
        | _ => None
        end
    | "."%char :: rest => Some (RAny, rest)
    | c :: rest => if special c then None else Some (RChar c, rest)
    | [] => None
    end
  end.

Definition compile (src : string) (ignoreCase : bool) : option (rx * bool) :=
  let s := list_ascii_of_string src in
  match p_alt (4 * length s + 4) s with
  | Some (r, []) => Some (r, ignoreCase)
  | _ => None
  end.

Definition lower (c : ascii) : ascii :=
  let n := nat_of_ascii c in
  if (65 <=? n) && (n <=? 90) then ascii_of_nat (n + 32) else c.

(** Character comparison, with the [i] flag folding ASCII letters. *)
Definition char_eq (ignoreCase : bool) (a b : ascii) : bool :=
  if ignoreCase then Ascii.eqb (lower a) (lower b) else Ascii.eqb a b.

Definition line_terminator (c : ascii) : bool :=
  Ascii.eqb c "010"%char || Ascii.eqb c "013"%char.

(** Continuation-passing matcher: [mt fuel r ic s pos k] matches [r] at
    [pos] and passes the end position to [k].  [fuel] bounds the nesting of
    [*] iterations, each of which advances the position. *)
Fixpoint mt (fuel : nat) (r : rx) (ic : bool) (s : string) (pos : nat)
    (k : nat -> option nat) {struct fuel} : option nat :=
  (fix go (r : rx) (pos : nat) (k : nat -> option nat) {struct r} : option nat :=
     match r with
     | REps => k pos
     | RChar c =>
         match String.get pos s with
         | Some c' => if char_eq ic c c' then k (S pos) else None
         | None => None
         end
     | RAny =>
         match String.get pos s with
         | Some c' => if line_terminator c' then None else k (S pos)
         | None => None
         end
     | RCat a b => go a pos (fun p => go b p k)
     | RAlt a b =>
         match go a pos k with
         | Some e => Some e
         | None => go b pos k
         end
     | RGroup a => go a pos k
     | RStar a =>
         match fuel with
         | 0 => None
         | S f =>
           match go a pos (fun p => if Nat.eqb p pos then None else mt f (RStar a) ic s p k) with
           | Some e => Some e
           | None => k pos
           end
         end
     end) r pos k.

Definition match_at (r : rx * bool) (s : string) (pos : nat) : option nat :=
  mt (S (String.length s)) (fst r) (snd r) s pos (fun e => Some e).

End Mini.

Definition mini_engine : RegExpEngine :=
  {| re_t := Mini.rx * bool; re_compile := Mini.compile; re_match_at := Mini.match_at |}.


(** ** Fixtures and predicates used by the statements *)

Definition dq : string := String "034"%char EmptyString.

(** A dictionary built from pattern strings, as
    [new Dictionary({ patterns })] builds it. *)
Definition dict_of {E : RegExpEngine} (id : nat) (pats : list string) : Dictionary E :=
  match new_Dictionary id {| opt_name := None; opt_patterns := Some (JArr (map JStr pats)) |} with
  | Ok d => d
  | Throw _ => {| d_id := id; d_name := JStr "<unknown>"; d_patterns := []; d_regExpMaps := [] |}
  end.

Definition searcherer_of {E : RegExpEngine} (ds : list (Dictionary E)) : Searcherer E :=
  {| s_dictionaries := ds; s_events := [] |}.

Definition plain_options {E : RegExpEngine} (caseSensitive : bool) : SearchOptions E :=
  {| opt_caseSensitive := caseSensitive; opt_filter := None; opt_encoding := None |}.

Definition line_context (line : string) (caseSensitive : bool) : SearchContext :=
  {| c_line := line; c_lineNumber := 0; c_caseSensitive := caseSensitive |}.

(** The observable part of a result list. *)
Definition positions (rs : list Result) : list (nat * nat * string) :=
  map (fun r => (r_lineNumber r, r_columnNumber r, r_match r)) rs.

Definition search_positions {E : RegExpEngine}
    (o : option (res (list Result) * Searcherer E)) : option (list (nat * nat * string)) :=
  match o with
  | Some (Ok rs, _) => Some (positions rs)
  | _ => None
  end.

(** The complete sequence of a generator, if it ends without error within
    [fuel] steps. *)
Definition full_run {E : RegExpEngine} (fuel : nat) (g : gen) (d : Dictionary E)
  : option (list (nat * nat * string) * Dictionary E) :=
  match consume fuel g d with
  | Some (rs, d', None) => Some (positions rs, d')
  | _ => None
  end.

(** The substring invariant of a [Result]. *)
Definition result_in_line (r : Result) : Prop :=
  substring (r_columnNumber r) (String.length (r_match r)) (r_line r) = r_match r.

(** Every cached pattern map of a dictionary has the dictionary's patterns
    as keys, in order. *)
Definition wf_dict {E : RegExpEngine} (d : Dictionary E) : Prop :=
  forall cs m, assoc_bool cs (d_regExpMaps d) = Some m -> map fst m = d_patterns d.

(** The results of pattern [k] of dictionary [d] on line [ln]: they carry
    the line, the dictionary and the pattern, in ascending column order. *)
Definition block_ok {E : RegExpEngine} (ln : nat) (line : string) (d : Dictionary E)
    (k : nat) (b : list Result) : Prop :=
  Forall (fun r => r_lineNumber r = ln /\ r_line r = line /\ r_dictionary r = d_id d /\
                   nth_error (d_patterns d) k = Some (r_pattern r)) b /\
  Sorted le (map r_columnNumber b).

Definition npatterns {E : RegExpEngine} (ds : list (Dictionary E)) (j : nat) : nat :=
  match nth_error ds j with
  | Some d => length (d_patterns d)
  | None => 0
  end.

(** Lines, then dictionaries, then patterns, each block in turn. *)
Definition nested_blocks {E : RegExpEngine} (nlines : nat) (ds : list (Dictionary E))
    (B : nat -> nat -> nat -> list Result) : list Result :=
  concat (map (fun i =>
    concat (map (fun j =>
      concat (map (fun k => B i j k) (seq 0 (npatterns ds j))))
      (seq 0 (length ds))))
    (seq 0 nlines)).

(** The text ["cat\ndog\ncat"]. *)
Definition nl : string := String "010"%char EmptyString.
Definition cat_text : string := "cat" ++ nl ++ "dog" ++ nl ++ "cat".

Definition named_dict_of {E : RegExpEngine} (id : nat) (name : string) (pats : list string)
  : Dictionary E :=
  match new_Dictionary id {| opt_name := Some (JStr name);
                             opt_patterns := Some (JArr (map JStr pats)) |} with
  | Ok d => d
  | Throw _ => {| d_id := id; d_name := JStr name; d_patterns := []; d_regExpMaps := [] |}
  end.

(** The predicate [d => d.name === name]. *)
Definition name_is {E : RegExpEngine} (name : string) (d : Dictionary E) : bool :=
  match d_name d with
  | JStr s => String.eqb s name
  | _ => false
  end.

Definition filter_options {E : RegExpEngine} (f : Dictionary E -> bool) : SearchOptions E :=
  {| opt_caseSensitive := false; opt_filter := Some f; opt_encoding := None |}.

(** A file system holding one ASCII file, and UTF-8 decoding of ASCII bytes. *)
Definition one_file_fs (path contents : string) : string -> option string :=
  fun p => if String.eqb p path then Some contents else None.

Definition ascii_decode (buffer encoding : string) : res string := Ok buffer.

(** Two dictionaries named ["a"] and ["b"]. *)
Definition ab_searcherer : Searcherer mini_engine :=
  searcherer_of [named_dict_of 0 "a" ["cat"]; named_dict_of 1 "b" ["cat"]].

(** The contents of a file [animals.json] holding [["cat"]], and the
    defaults [addDictionaryFile] passes for it. *)
Definition cat_array_text : string := "[" ++ dq ++ "cat" ++ dq ++ "]".
Definition file_defaults : DictionaryOptions :=
  {| opt_name := Some (JStr "animals"); opt_patterns := None |}.

(** No two entries of a list are SameValueZero-equal. *)
Definition svz_distinct (l : list json) : Prop :=
  ForallOrdPairs (fun a b => same_value_zero a b = false) l.

(** Every [RegExp] of a pattern map is at [lastIndex] 0. *)
Definition fresh_map {E : RegExpEngine} (m : list (json * RegExp E)) : Prop :=
  Forall (fun e => lastIndex (snd e) = 0) m.

(** Every cached pattern map of a dictionary is fresh: the state of a new
    dictionary, and (as proved below) of one whose searches all ran to
    their end. *)
Definition clean_dict {E : RegExpEngine} (d : Dictionary E) : Prop :=
  forall cs m, assoc_bool cs (d_regExpMaps d) = Some m -> fresh_map m.

(** [d'] is [d] once [_createRegExpMap(caseSensitive)] has run: the pattern
    map for [caseSensitive] is cached and every [RegExp] in it is at
    [lastIndex] 0. *)
Definition cached_state {E : RegExpEngine} (cs : bool) (d d' : Dictionary E) : Prop :=
  exists m, createRegExpMap d cs = Ok (m, d') /\ fresh_map m.

(** The part of a dictionary that searching never changes. *)
Definition dict_shape {E : RegExpEngine} (d : Dictionary E) : nat * json * list json :=
  (d_id d, d_name d, d_patterns d).

(** ** Sanity checks on concrete inputs *)

Example JSON_parse_str : JSON_parse (dq ++ "foo" ++ dq) = Some (JStr "foo").
Proof. reflexivity. Qed.

Example JSON_parse_obj :
  JSON_parse ("{" ++ dq ++ "name" ++ dq ++ ": " ++ dq ++ "x" ++ dq ++ ", " ++ dq ++ "patterns"
              ++ dq ++ ": [" ++ dq ++ "a" ++ dq ++ "," ++ dq ++ "b" ++ dq ++ "]}")
  = Some (JObj [("name", JStr "x"); ("patterns", JArr [JStr "a"; JStr "b"])]).
Proof. reflexivity. Qed.

Example mini_compile_paren : Mini.compile "(" false = None.
Proof. reflexivity. Qed.

Example mini_compile_ok : exists r, Mini.compile "(ca|do)t*" true = Some r.
Proof. eexists. reflexivity. Qed.

Example case_insensitive_two_matches :
  search_positions (search 10 (searcherer_of [dict_of (E:=mini_engine) 0 ["Foo"]])
                      (Some "foo bar Foo") (plain_options false))
  = Some [(0, 0, "foo"); (0, 8, "Foo")].
Proof. vm_compute. reflexivity. Qed.

Example case_sensitive_one_match :
  search_positions (search 10 (searcherer_of [dict_of (E:=mini_engine) 0 ["Foo"]])
                      (Some "foo bar Foo") (plain_options true))
  = Some [(0, 8, "Foo")].
Proof. vm_compute. reflexivity. Qed.

Example empty_value_no_results :
  search 10 (searcherer_of [dict_of (E:=mini_engine) 0 ["Foo"]]) (Some EmptyString) (plain_options true)
  = Some (Ok [], searcherer_of [dict_of 0 ["Foo"]]).
Proof. reflexivity. Qed.

(** The JSON reader on sample texts: negative, fractional and exponent
    numbers read as the nearest double and print as [Number::toString]
    prints it, and [\u] escapes decode. *)
Example JSON_parse_numbers :
  map (fun t => match JSON_parse t with Some (JNum x) => Some (Num.to_string x) | _ => None end)
      ["-1"; "1.5"; "1e3"; "-0"; "0.1"; "5e-324"; "1e400"; "1e21"; "9007199254740993"; "01"; "1."]
  = [Some "-1"; Some "1.5"; Some "1000"; Some "0"; Some "0.1"; Some "5e-324"; Some "Infinity";
     Some "1e+21"; Some "9007199254740992"; None; None].
Proof. vm_compute. reflexivity. Qed.

Example JSON_parse_escapes :
  JSON_parse (dq ++ "\u0061" ++ dq) = Some (JStr "a") /\
  match JSON_parse ("{" ++ dq ++ "patterns" ++ dq ++ ":[" ++ dq ++ "a" ++ dq ++ "]," ++ dq ++ "v"
                    ++ dq ++ ":-1}") with
  | Some (JObj [("patterns", JArr [JStr "a"]); ("v", JNum x)]) => Num.to_string x = "-1"
  | _ => False
  end.
Proof. vm_compute. split; reflexivity. Qed.

(** ** General lemmas *)

Lemma split_aux_cons (s cur : string) : exists l ls, split_aux s cur = l :: ls.
Proof.
  revert cur; induction s as [|c rest IH]; intros cur; simpl.
  - eauto.
  - destruct (Ascii.eqb c "013"%char).
    + destruct rest as [|c2 rest2]; [eauto|].
      destruct (Ascii.eqb c2 "010"%char); eauto.
    + destruct (Ascii.eqb c "010"%char); eauto.
Qed.

Lemma js_or_undefined (b : jsv) : js_or None b = b.
Proof. reflexivity. Qed.

Lemma consume_S {E : RegExpEngine} (f : nat) (g : gen) (d : Dictionary E) :
  consume (S f) g d =
  match gen_next g d with
  | (Yield r, g', d') =>
      match consume f g' d' with
      | Some (rs, d'', err) => Some (r :: rs, d'', err)
      | None => None
      end
  | (Finished, _, d') => Some ([], d', None)
  | (Raised e, _, d') => Some ([], d', Some e)
  end.
Proof. reflexivity. Qed.

Lemma svz_eq (x y : json) : same_value_zero x y = true -> x = y.
Proof.
  destruct x, y; simpl; try discriminate; intros H; try reflexivity.
  - apply Bool.eqb_prop in H; subst; reflexivity.
  - apply Z.eqb_eq in H; subst; reflexivity.
  - apply String.eqb_eq in H; subst; reflexivity.
Qed.

Lemma in_set_add (z x : json) (l : list json) : z = x \/ In z l -> In z (set_add x l).
Proof.
  induction l as [|y l IH]; simpl; intros [H|H]; subst; auto.
  - destruct (same_value_zero x y) eqn:E1; simpl; auto.
    left. symmetry. apply svz_eq. exact E1.
  - destruct H as [H|H]; subst.
    + destruct (same_value_zero x z); simpl; auto.
    + destruct (same_value_zero x y); simpl; auto.
Qed.

Lemma in_fold_set_add (z : json) (l acc : list json) :
  In z l \/ In z acc -> In z (fold_left (fun acc x => set_add x acc) l acc).
Proof.
  revert acc; induction l as [|x l IH]; simpl; intros acc [H|H]; auto.
  - contradiction.
  - apply IH. destruct H as [H|H]; [right; apply in_set_add; auto | left; exact H].
  - apply IH. right. apply in_set_add. auto.
Qed.

Lemma in_set_of_list (z : json) (l : list json) : In z l -> In z (set_of_list l).
Proof. intros H. apply in_fold_set_add. auto. Qed.

Lemma compile_all_fails {E : RegExpEngine} (flagsI : bool) (ps : list json) (p : json) :
  In p ps -> re_compile E (js_to_string p) flagsI = None ->
  compile_all (E:=E) flagsI ps = Throw SyntaxError.
Proof.
  induction ps as [|q ps IH]; simpl; [contradiction|].
  intros [H|H] Hc.
  - subst. rewrite Hc. reflexivity.
  - destruct (re_compile E (js_to_string q) flagsI); [|reflexivity].
    rewrite (IH H Hc). reflexivity.
Qed.

Lemma get_lt (n : nat) (s : string) (c : ascii) : String.get n s = Some c -> n < String.length s.
Proof.
  revert n; induction s as [|a s IH]; intros n H; simpl in *; [discriminate|].
  destruct n; [lia|]. apply IH in H. lia.
Qed.

Lemma substring_length (n m : nat) (s : string) :
  n + m <= String.length s -> String.length (substring n m s) = m.
Proof.
  revert n m; induction s as [|a s IH]; intros n m H; simpl in *.
  - destruct n, m; simpl; lia.
  - destruct n as [|n].
    + destruct m as [|m]; simpl; [reflexivity|]. rewrite IH; lia.
    + apply IH. lia.
Qed.

Lemma scan_spec {E : RegExpEngine} (r : re_t E) (s : string) (p k i e : nat) :
  scan r s p k = Some (i, e) -> p <= i <= p + k /\ re_match_at E r s i = Some e.
Proof.
  revert p; induction k as [|k IH]; intros p H; simpl in H;
    destruct (re_match_at E r s p) eqn:Hm.
  - inversion H; subst. split; [lia | exact Hm].
  - discriminate.
  - inversion H; subst. split; [lia | exact Hm].
  - apply IH in H. destruct H as [H1 H2]. split; [lia | exact H2].
Qed.

Lemma exec_some {E : RegExpEngine} (re re' : RegExp E) (s : string) (i e : nat) :
  exec re s = (Some (i, e), re') ->
  lastIndex re <= i <= String.length s /\ re_match_at E (re_prog re) s i = Some e /\
  re' = mkRegExp (re_prog re) e.
Proof.
  unfold exec. destruct (String.length s <? lastIndex re) eqn:Hl; [discriminate|].
  apply Nat.ltb_ge in Hl.
  destruct (scan (re_prog re) s (lastIndex re) (String.length s - lastIndex re)) as [[i' e']|] eqn:Hs;
    [|discriminate].
  intros H; inversion H; subst. apply scan_spec in Hs. destruct Hs as [H1 H2].
  repeat split; auto; lia.
Qed.

Lemma exec_none {E : RegExpEngine} (re re' : RegExp E) (s : string) :
  exec re s = (None, re') -> re' = mkRegExp (re_prog re) 0.
Proof.
  unfold exec. destruct (String.length s <? lastIndex re); [congruence|].
  destruct (scan (re_prog re) s (lastIndex re) (String.length s - lastIndex re)) as [[i' e']|];
    congruence.
Qed.

(** The concrete engine satisfies the ECMAScript bound. *)
Section MiniBounds.
Import Mini.

Lemma mt_cat n a b ic s pos k :
  mt n (RCat a b) ic s pos k = mt n a ic s pos (fun p => mt n b ic s p k).
Proof. destruct n; reflexivity. Qed.

Lemma mt_alt n a b ic s pos k :
  mt n (RAlt a b) ic s pos k =
  match mt n a ic s pos k with Some e => Some e | None => mt n b ic s pos k end.
Proof. destruct n; reflexivity. Qed.

Lemma mt_group n a ic s pos k : mt n (RGroup a) ic s pos k = mt n a ic s pos k.
Proof. destruct n; reflexivity. Qed.

Lemma mt_star n a ic s pos k :
  mt n (RStar a) ic s pos k =
  match n with
  | 0 => None
  | S f =>
    match mt n a ic s pos (fun p => if Nat.eqb p pos then None else mt f (RStar a) ic s p k) with
    | Some e => Some e
    | None => k pos
    end
  end.
Proof. destruct n; reflexivity. Qed.

Ltac mt_char H :=
  simpl in H;
  match type of H with
  | context [String.get ?pos ?s] =>
      let Hg := fresh "Hg" in
      destruct (String.get pos s) eqn:Hg; [|discriminate];
      repeat match type of H with
             | context [if ?b then _ else _] => destruct b; [|try discriminate]; try discriminate
             end;
      apply get_lt in Hg; exists (S pos); split; [lia | exact H]
  end.

Lemma mt_sound n r ic s pos k e :
  mt n r ic s pos k = Some e ->
  exists p, pos <= p <= Nat.max pos (String.length s) /\ k p = Some e.
Proof.
  revert r pos k e; induction n as [|f IHf]; intros r;
    induction r as [| c | | a IHa b IHb | a IHa b IHb | a IHa | a IHa ]; intros pos k e H.
  all: match goal with
       | [ H : mt _ REps _ _ _ _ = _ |- _ ] => exists pos; split; [lia | exact H]
       | [ H : mt _ (RChar _) _ _ _ _ = _ |- _ ] => mt_char H
       | [ H : mt _ RAny _ _ _ _ = _ |- _ ] => mt_char H
       | [ H : mt _ (RCat _ _) _ _ _ _ = _ |- _ ] =>
           rewrite mt_cat in H; apply IHa in H; destruct H as [p1 [Hp1 H]];
           apply IHb in H; destruct H as [p2 [Hp2 H]]; exists p2; split; [lia | exact H]
       | [ H : mt _ (RAlt _ _) _ _ _ _ = _ |- _ ] =>
           rewrite mt_alt in H; destruct (mt _ a ic s pos k) eqn:Ha;
           [inversion H; subst; apply IHa in Ha; exact Ha | apply IHb in H; exact H]
       | [ H : mt _ (RGroup _) _ _ _ _ = _ |- _ ] => rewrite mt_group in H; apply IHa in H; exact H
       | [ H : mt 0 (RStar _) _ _ _ _ = _ |- _ ] => rewrite mt_star in H; discriminate
       | _ => idtac
       end.
  rewrite mt_star in H.
  destruct (mt (S f) a ic s pos _) eqn:Ha.
  - inversion H; subst. apply IHa in Ha. destruct Ha as [p1 [Hp1 Ha]].
    destruct (Nat.eqb p1 pos); [discriminate|].
    apply IHf in Ha. destruct Ha as [p2 [Hp2 Ha]]. exists p2. split; [lia | exact Ha].
  - exists pos. split; [lia | exact H].
Qed.

End MiniBounds.

Lemma mini_engine_bounded : engine_bounded mini_engine.
Proof.
  intros r s p e Hp H. simpl in H. unfold Mini.match_at in H.
  apply mt_sound in H. destruct H as [q [Hq H]]. inversion H; subst. lia.
Qed.

Section ResultInvariant.
Context {E : RegExpEngine}.
Hypothesis bounded : engine_bounded E.

Lemma loop_from_yield_in_line (rest : list (json * RegExp E)) (d : Dictionary E) ctx k r g d' :
  loop_from d ctx k rest = (Yield r, g, d') -> result_in_line r.
Proof.
  revert d k; induction rest as [|[pattern re] rest IH]; intros d k H; simpl in H; [discriminate|].
  destruct (exec re (c_line ctx)) as [m re'] eqn:Hx.
  destruct m as [[i e]|].
  - inversion H; subst. apply exec_some in Hx. destruct Hx as [Hi [Hm _]].
    apply bounded in Hm; [|lia].
    unfold result_in_line; simpl. rewrite substring_length by lia. reflexivity.
  - eapply IH. exact H.
Qed.

Lemma gen_next_yield_in_line (g : gen) (d : Dictionary E) r g' d' :
  gen_next g d = (Yield r, g', d') -> result_in_line r.
Proof.
  destruct g as [ctx|ctx k|]; simpl; intros H.
  - destruct (createRegExpMap d (c_caseSensitive ctx)) as [[m d1]|e]; [|discriminate].
    eapply loop_from_yield_in_line. exact H.
  - destruct (assoc_bool (c_caseSensitive ctx) (d_regExpMaps d)); [|discriminate].
    eapply loop_from_yield_in_line. exact H.
  - discriminate.
Qed.

Lemma consume_in_line fuel (g : gen) (d : Dictionary E) rs d' err :
  consume fuel g d = Some (rs, d', err) -> Forall result_in_line rs.
Proof.
  revert g d rs; induction fuel as [|f IH]; intros g d rs H; [discriminate|].
  rewrite consume_S in H.
  destruct (gen_next g d) as [[[r| |e] g'] d1] eqn:Hn.
  - destruct (consume f g' d1) as [[[rs' d2] err']|] eqn:Hc; [|discriminate].
    inversion H; subst. constructor.
    + eapply gen_next_yield_in_line. exact Hn.
    + eapply IH. exact Hc.
  - inversion H; subst. constructor.
  - inversion H; subst. constructor.
Qed.

Lemma search_dicts_in_line fuel ctx (ds : list (Dictionary E)) evs acc ds' evs' acc' err :
  Forall result_in_line acc ->
  search_dicts fuel ctx ds evs acc = Some (ds', evs', acc', err) ->
  Forall result_in_line acc'.
Proof.
  revert evs acc ds'; induction ds as [|d ds IH]; intros evs acc ds' Hacc H; simpl in H.
  - inversion H; subst. exact Hacc.
  - destruct (consume fuel (Dictionary_search ctx) d) as [[[rs d1] [e|]]|] eqn:Hc; [| |discriminate].
    + inversion H; subst. apply Forall_app. split; [exact Hacc|].
      eapply consume_in_line. exact Hc.
    + destruct (search_dicts fuel ctx ds _ _) as [[[[ds2 evs2] acc2] err2]|] eqn:Hs; [|discriminate].
      inversion H; subst. eapply IH; [|exact Hs].
      apply Forall_app. split; [exact Hacc|]. eapply consume_in_line. exact Hc.
Qed.

Lemma search_lines_in_line fuel (S : Searcherer E) opts ln lines acc S' acc' err :
  Forall result_in_line acc ->
  search_lines fuel S opts ln lines acc = Some (S', acc', err) ->
  Forall result_in_line acc'.
Proof.
  revert S ln acc; induction lines as [|line lines IH]; intros S ln acc Hacc H; simpl in H.
  - inversion H; subst. exact Hacc.
  - unfold searchLine in H. destruct (opt_filter opts).
    + inversion H; subst. exact Hacc.
    + destruct (search_dicts fuel _ (s_dictionaries S) (s_events S) acc)
        as [[[[ds evs] acc1] err1]|] eqn:Hs; [|discriminate].
      assert (H1 : Forall result_in_line acc1) by (eapply search_dicts_in_line; eauto).
      destruct err1; [inversion H; subst; exact H1|].
      eapply IH; [exact H1 | exact H].
Qed.

End ResultInvariant.

(** ** Block structure of the results *)

Lemma set_entry_fst {E : RegExpEngine} k (re : RegExp E) m : map fst (set_entry k re m) = map fst m.
Proof.
  revert k; induction m as [|[p r] m IH]; intros [|k]; simpl; try reflexivity.
  rewrite IH. reflexivity.
Qed.

Lemma set_entry_length {E : RegExpEngine} k (re : RegExp E) m : length (set_entry k re m) = length m.
Proof. rewrite <- (length_map fst), set_entry_fst, length_map. reflexivity. Qed.

Lemma skipn_set_entry {E : RegExpEngine} k (re : RegExp E) m :
  skipn (S k) (set_entry k re m) = skipn (S k) m.
Proof.
  revert k; induction m as [|[p r] m IH]; intros [|k]; simpl; try reflexivity.
  apply IH.
Qed.

Lemma nth_set_entry {E : RegExpEngine} k (re r0 : RegExp E) p m :
  nth_error m k = Some (p, r0) -> nth_error (set_entry k re m) k = Some (p, re).
Proof.
  revert k; induction m as [|[q r] m IH]; intros [|k] H; simpl in *; try discriminate.
  - inversion H; subst; reflexivity.
  - apply IH; exact H.
Qed.

Lemma skipn_cons_nth {A} k (m : list A) x rest :
  skipn k m = x :: rest -> nth_error m k = Some x /\ skipn (S k) m = rest.
Proof.
  revert m; induction k as [|k IH]; intros [|y m] H; simpl in *; try discriminate.
  - inversion H; subst. auto.
  - apply IH. exact H.
Qed.

Lemma assoc_update {A} (c cs : bool) (f : A -> A) l :
  assoc_bool c (update_bool cs f l) =
  if Bool.eqb c cs then option_map f (assoc_bool c l) else assoc_bool c l.
Proof.
  induction l as [|[k a] l IH]; simpl.
  - destruct (Bool.eqb c cs); reflexivity.
  - destruct c, cs, k; simpl in *; rewrite ?IH; reflexivity.
Qed.

Lemma assoc_snoc {A} (c cs : bool) (x : A) l :
  assoc_bool c (l ++ [(cs, x)])%list =
  match assoc_bool c l with Some y => Some y | None => if Bool.eqb c cs then Some x else None end.
Proof.
  induction l as [|[k a] l IH]; simpl; [reflexivity|].
  destruct (Bool.eqb c k); [reflexivity | exact IH].
Qed.

Lemma compile_all_fst {E : RegExpEngine} fi ps (m : list (json * RegExp E)) :
  compile_all fi ps = Ok m -> map fst m = ps.
Proof.
  revert m; induction ps as [|p ps IH]; simpl; intros m H.
  - inversion H; reflexivity.
  - destruct (re_compile E (js_to_string p) fi); [|discriminate].
    destruct (compile_all fi ps) as [m'|] eqn:Hc; simpl in H; [|discriminate].
    inversion H; subst. simpl. rewrite (IH m' eq_refl). reflexivity.
Qed.

Lemma wf_update {E : RegExpEngine} (d : Dictionary E) cs k re :
  wf_dict d -> wf_dict (with_regExpMaps d (update_bool cs (set_entry k re) (d_regExpMaps d))).
Proof.
  intros Hw c m H. simpl in H. rewrite assoc_update in H.
  destruct (Bool.eqb c cs).
  - destruct (assoc_bool c (d_regExpMaps d)) as [m0|] eqn:H0; simpl in H; [|discriminate].
    inversion H; subst. rewrite set_entry_fst. apply (Hw c m0 H0).
  - apply (Hw c m H).
Qed.

Lemma createRegExpMap_spec {E : RegExpEngine} (d d1 : Dictionary E) cs m :
  wf_dict d -> createRegExpMap d cs = Ok (m, d1) ->
  wf_dict d1 /\ assoc_bool cs (d_regExpMaps d1) = Some m /\
  d_id d1 = d_id d /\ d_patterns d1 = d_patterns d.
Proof.
  intros Hw. unfold createRegExpMap.
  destruct (assoc_bool cs (d_regExpMaps d)) as [m0|] eqn:H0.
  - intros H; inversion H; subst. auto.
  - destruct (compile_all (negb cs) (d_patterns d)) as [m1|] eqn:Hc; simpl; [|discriminate].
    intros H; inversion H; subst. simpl.
    repeat split; try reflexivity.
    + intros c m2 H2. simpl in H2. rewrite assoc_snoc in H2.
      destruct (assoc_bool c (d_regExpMaps d)) as [m3|] eqn:H3.
      * inversion H2; subst. apply (Hw c m2 H3).
      * destruct (Bool.eqb c cs); inversion H2; subst. apply compile_all_fst in Hc. exact Hc.
    + rewrite assoc_snoc, H0, Bool.eqb_reflx. reflexivity.
Qed.

Lemma concat_map_nil {A B} (l : list A) : concat (map (fun _ => @nil B) l) = [].
Proof. induction l; simpl; auto. Qed.

Lemma concat_seq_split {A} (B B' : nat -> list A) (x : A) (k' : nat) :
  (forall j, j < k' -> B j = []) -> B k' = x :: B' k' -> (forall j, k' < j -> B j = B' j) ->
  forall n k, k <= k' < k + n ->
  concat (map B (seq k n)) = x :: concat (map B' (seq k' (k + n - k'))).
Proof.
  intros Hlt Heq Hgt n. induction n as [|n IH]; intros k Hk; [lia|].
  simpl. destruct (Nat.eq_dec k k') as [-> | Hne].
  - rewrite Heq. replace (k' + S n - k') with (S n) by lia. simpl. f_equal. f_equal.
    f_equal. apply map_ext_in. intros j Hj. apply in_seq in Hj. apply Hgt. lia.
  - rewrite Hlt by lia. simpl. rewrite (IH (S k)) by lia.
    replace (S k + n - k') with (k + S n - k') by lia. reflexivity.
Qed.

Lemma sorted_cons_le (x : nat) (l : list nat) :
  Forall (fun y => x <= y) l -> Sorted le l -> Sorted le (x :: l).
Proof.
  intros Hf Hs. constructor; [exact Hs|]. destruct l; constructor. inversion Hf; auto.
Qed.

Lemma block_ok_transfer {E : RegExpEngine} ln line (d d' : Dictionary E) k b :
  d_id d' = d_id d -> d_patterns d' = d_patterns d ->
  block_ok ln line d' k b -> block_ok ln line d k b.
Proof. unfold block_ok. intros -> ->. auto. Qed.

Section BlockStructure.
Context {E : RegExpEngine}.
Hypothesis bounded : engine_bounded E.
Variable ctx : SearchContext.
Let cs := c_caseSensitive ctx.

(** One resumption of the pattern-map loop from entry [k]. *)
Lemma loop_from_spec (rest : list (json * RegExp E)) :
  forall (d : Dictionary E) k m out g d',
  wf_dict d -> assoc_bool cs (d_regExpMaps d) = Some m -> skipn k m = rest ->
  loop_from d ctx k rest = (out, g, d') ->
  wf_dict d' /\ d_id d' = d_id d /\ d_patterns d' = d_patterns d /\
  exists m', assoc_bool cs (d_regExpMaps d') = Some m' /\ length m' = length m /\
  ((out = Finished /\ g = GDone) \/
   (exists r k' p re, out = Yield r /\ g = GLoop ctx k' /\ k <= k' /\
      nth_error m' k' = Some (p, re) /\
      r_lineNumber r = c_lineNumber ctx /\ r_line r = c_line ctx /\
      r_dictionary r = d_id d /\ r_pattern r = p /\ r_columnNumber r <= lastIndex re /\
      (k' = k -> forall p0 re0, nth_error m k = Some (p0, re0) -> lastIndex re0 <= r_columnNumber r))).
Proof.
  induction rest as [|[pattern re] rest IH]; intros d k m out g d' Hw Hm Hk H; simpl in H.
  - inversion H; subst. repeat split; auto. exists m. auto.
  - apply skipn_cons_nth in Hk. destruct Hk as [Hnth Hskip].
    destruct (exec re (c_line ctx)) as [x re'] eqn:Hx.
    set (d1 := with_regExpMaps d (update_bool (c_caseSensitive ctx) (set_entry k re') (d_regExpMaps d))).
    assert (Hw1 : wf_dict d1) by (apply wf_update; exact Hw).
    assert (Hm1 : assoc_bool cs (d_regExpMaps d1) = Some (set_entry k re' m)).
    { unfold d1. simpl. rewrite assoc_update. unfold cs. rewrite Bool.eqb_reflx.
      fold cs. rewrite Hm. reflexivity. }
    destruct x as [[i e]|].
    + inversion H; subst. clear H.
      apply exec_some in Hx. destruct Hx as [Hi [Hmatch Hre']].
      apply bounded in Hmatch; [|lia].
      repeat split; auto.
      exists (set_entry k re' m). split; [exact Hm1|]. split; [apply set_entry_length|].
      right. eexists. exists k, pattern, re'.
      do 3 (split; [reflexivity || lia|]).
      split; [eapply nth_set_entry; exact Hnth|].
      do 4 (split; [reflexivity|]).
      split; [subst re'; simpl; lia|].
      intros _ p0 re0 H0. rewrite Hnth in H0. inversion H0; subst. simpl. lia.
    + apply exec_none in Hx.
      assert (Hs1 : skipn (S k) (set_entry k re' m) = rest) by (rewrite skipn_set_entry; exact Hskip).
      destruct (IH d1 (S k) _ out g d' Hw1 Hm1 Hs1 H) as [Hw' [Hid [Hp [m' [Hm' [Hlen Hcase]]]]]].
      repeat split; auto.
      exists m'. split; [exact Hm'|]. split; [rewrite Hlen; apply set_entry_length|].
      destruct Hcase as [Hf|[r [k' [p [re1 [Hy [Hg [Hle [Hn [H1 [H2 [H3 [H4 [H5 _]]]]]]]]]]]]]];
        [left; exact Hf|].
      right. exists r, k', p, re1. repeat split; auto; try lia.
Qed.

Lemma gen_next_loop (k : nat) (d : Dictionary E) m :
  assoc_bool cs (d_regExpMaps d) = Some m ->
  gen_next (GLoop ctx k) d = loop_from d ctx k (skipn k m).
Proof. intros Hm. simpl. unfold cs in Hm. rewrite Hm. reflexivity. Qed.

(** Consuming the generator from entry [k] of the pattern map to its end. *)
Lemma consume_loop_blocks (fuel : nat) :
  forall k (d : Dictionary E) m rs d',
  wf_dict d -> assoc_bool cs (d_regExpMaps d) = Some m -> k <= length m ->
  consume fuel (GLoop ctx k) d = Some (rs, d', None) ->
  wf_dict d' /\ d_id d' = d_id d /\ d_patterns d' = d_patterns d /\
  exists B, rs = concat (map B (seq k (length m - k))) /\
    (forall j, k <= j < length m -> block_ok (c_lineNumber ctx) (c_line ctx) d j (B j)) /\
    (forall p0 re0, nth_error m k = Some (p0, re0) ->
       Forall (fun r => lastIndex re0 <= r_columnNumber r) (B k)).
Proof.
  induction fuel as [|f IH]; intros k d m rs d' Hw Hm Hk H; [discriminate|].
  rewrite consume_S, (gen_next_loop k d m Hm) in H.
  destruct (loop_from d ctx k (skipn k m)) as [[out g] d1] eqn:Hl.
  destruct (loop_from_spec _ d k m out g d1 Hw Hm eq_refl Hl)
    as [Hw1 [Hid1 [Hp1 [m1 [Hm1 [Hlen1 Hcase]]]]]].
  destruct Hcase as [[-> ->] | [r [k' [p [re [-> [-> [Hkk [Hn [H1 [H2 [H3 [H4 [H5 H6]]]]]]]]]]]]]].
  - inversion H; subst. repeat split; auto.
    exists (fun _ => []). split; [symmetry; apply concat_map_nil|]. split.
    + intros j _. split; constructor.
    + intros. constructor.
  - destruct (consume f (GLoop ctx k') d1) as [[[rs' d2] err]|] eqn:Hc; [|discriminate].
    injection H as Hrs0 Hd Herr. subst rs d2 err.
    assert (Hk' : k' < length m1) by (apply nth_error_Some; congruence).
    destruct (IH k' d1 m1 rs' d' Hw1 Hm1 ltac:(lia) Hc)
      as [Hw2 [Hid2 [Hp2 [B' [Hrs [Hblk Hlow]]]]]].
    repeat split; auto; try congruence.
    set (B := fun j => if j <? k' then [] else if j =? k' then r :: B' k' else B' j).
    assert (HBlt : forall j, j < k' -> B j = []).
    { intros j Hj. unfold B. apply Nat.ltb_lt in Hj. rewrite Hj. reflexivity. }
    assert (HBeq : B k' = r :: B' k').
    { unfold B. rewrite Nat.ltb_irrefl, Nat.eqb_refl. reflexivity. }
    assert (HBgt : forall j, k' < j -> B j = B' j).
    { intros j Hj. unfold B. destruct (j <? k') eqn:E1; [apply Nat.ltb_lt in E1; lia|].
      destruct (j =? k') eqn:E2; [apply Nat.eqb_eq in E2; lia | reflexivity]. }
    assert (Hpat : nth_error (d_patterns d) k' = Some (r_pattern r)).
    { rewrite <- Hp1, <- (Hw1 _ _ Hm1), H4. rewrite nth_error_map, Hn. reflexivity. }
    exists B. split; [|split].
    + rewrite (concat_seq_split B B' r k' HBlt HBeq HBgt (length m - k) k) by lia.
      rewrite Hrs, Hlen1. replace (k + (length m - k) - k') with (length m - k') by lia.
      reflexivity.
    + intros j Hj. destruct (lt_eq_lt_dec j k') as [[Hlt | ->] | Hgt].
      * rewrite HBlt by exact Hlt. split; constructor.
      * rewrite HBeq. destruct (Hblk k' ltac:(lia)) as [Hf Hs]. split.
        -- constructor; [repeat split; congruence|].
           eapply Forall_impl; [|exact Hf]. simpl. intros x [Hx1 [Hx2 [Hx3 Hx4]]].
           repeat split; congruence.
        -- simpl. apply sorted_cons_le; [|exact Hs].
           apply Forall_map. specialize (Hlow p re Hn).
           eapply Forall_impl; [|exact Hlow]. simpl. intros x Hx. lia.
      * rewrite HBgt by exact Hgt.
        eapply block_ok_transfer; [exact Hid1 | exact Hp1 | apply Hblk; lia].
    + intros p0 re0 Hn0. destruct (Nat.eq_dec k' k) as [-> | Hne].
      * rewrite HBeq. specialize (H6 eq_refl p0 re0 Hn0). constructor; [exact H6|].
        specialize (Hlow p re Hn). eapply Forall_impl; [|exact Hlow]. simpl. intros x Hx. lia.
      * rewrite HBlt by lia. constructor.
Qed.

(** Consuming a fresh generator of [search(context)] to its end. *)
Lemma consume_start_blocks (fuel : nat) (d : Dictionary E) rs d' :
  wf_dict d -> consume fuel (GStart ctx) d = Some (rs, d', None) ->
  wf_dict d' /\ d_id d' = d_id d /\ d_patterns d' = d_patterns d /\
  exists B, rs = concat (map B (seq 0 (length (d_patterns d)))) /\
    (forall k, k < length (d_patterns d) -> block_ok (c_lineNumber ctx) (c_line ctx) d k (B k)).
Proof.
  intros Hw H. destruct fuel as [|f]; [discriminate|].
  destruct (createRegExpMap d (c_caseSensitive ctx)) as [[m d1]|e] eqn:Hc.
  - destruct (createRegExpMap_spec d d1 _ m Hw Hc) as [Hw1 [Hm1 [Hid1 Hp1]]].
    assert (Heq : consume (S f) (GStart ctx) d = consume (S f) (GLoop ctx 0) d1).
    { rewrite !consume_S. simpl. rewrite Hc, Hm1. reflexivity. }
    rewrite Heq in H.
    assert (Hlen : length m = length (d_patterns d)).
    { rewrite <- Hp1, <- (Hw1 _ _ Hm1), length_map. reflexivity. }
    destruct (consume_loop_blocks (S f) 0 d1 m rs d' Hw1 Hm1 ltac:(lia) H)
      as [Hw2 [Hid2 [Hp2 [B [Hrs [Hblk _]]]]]].
    repeat split; auto; try congruence.
    exists B. split.
    + rewrite Hrs, Hlen, Nat.sub_0_r. reflexivity.
    + intros k Hk. eapply block_ok_transfer; [exact Hid1 | exact Hp1 | apply Hblk; lia].
  - rewrite consume_S in H. simpl in H. rewrite Hc in H. discriminate.
Qed.

End BlockStructure.

Lemma npatterns_cons {E : RegExpEngine} (d : Dictionary E) ds j :
  npatterns (d :: ds) (Datatypes.S j) = npatterns ds j.
Proof. reflexivity. Qed.

Lemma npatterns_same {E : RegExpEngine} (ds ds' : list (Dictionary E)) j :
  map d_patterns ds' = map d_patterns ds -> npatterns ds' j = npatterns ds j.
Proof.
  intros Hm. unfold npatterns.
  assert (H := f_equal (fun l => nth_error l j) Hm). simpl in H.
  rewrite !nth_error_map in H.
  destruct (nth_error ds' j), (nth_error ds j); simpl in H; congruence.
Qed.

Lemma nth_same_dict {E : RegExpEngine} (ds ds' : list (Dictionary E)) j d :
  map d_id ds' = map d_id ds -> map d_patterns ds' = map d_patterns ds ->
  nth_error ds j = Some d ->
  exists d', nth_error ds' j = Some d' /\ d_id d' = d_id d /\ d_patterns d' = d_patterns d.
Proof.
  intros Hi Hp Hn.
  assert (H1 := f_equal (fun l => nth_error l j) Hi).
  assert (H2 := f_equal (fun l => nth_error l j) Hp). simpl in H1, H2.
  rewrite !nth_error_map, Hn in H1, H2.
  destruct (nth_error ds' j) as [d'|]; simpl in H1, H2; [|discriminate].
  exists d'. split; [reflexivity|]. split; congruence.
Qed.

Section LineBlocks.
Context {E : RegExpEngine}.
Hypothesis bounded : engine_bounded E.

(** All dictionaries searched against one line, in order. *)
Lemma search_dicts_blocks (fuel : nat) (ctx : SearchContext) :
  forall (ds : list (Dictionary E)) evs acc ds' evs' acc',
  Forall wf_dict ds ->
  search_dicts fuel ctx ds evs acc = Some (ds', evs', acc', None) ->
  Forall wf_dict ds' /\ map d_id ds' = map d_id ds /\ map d_patterns ds' = map d_patterns ds /\
  exists Bd : nat -> nat -> list Result,
    acc' = (acc ++ concat (map (fun j =>
              concat (map (fun k => Bd j k) (seq 0 (npatterns ds j)))) (seq 0 (length ds))))%list /\
    (forall j d k, nth_error ds j = Some d -> k < length (d_patterns d) ->
       block_ok (c_lineNumber ctx) (c_line ctx) d k (Bd j k)).
Proof.
  induction ds as [|d ds IH]; intros evs acc ds' evs' acc' Hw H; simpl in H.
  - inversion H; subst. repeat split; auto.
    exists (fun _ _ => []). split.
    + simpl. rewrite app_nil_r. reflexivity.
    + intros [|j] d k Hn; discriminate.
  - inversion Hw as [|? ? Hwd Hwds]; subst.
    unfold Dictionary_search in H.
    destruct (consume fuel (GStart ctx) d) as [[[rs d1] [e|]]|] eqn:Hc; [discriminate| |discriminate].
    destruct (search_dicts fuel ctx ds _ _) as [[[[ds2 evs2] acc2] err2]|] eqn:Hs; [|discriminate].
    inversion H; subst. clear H.
    destruct (consume_start_blocks bounded ctx fuel d rs d1 Hwd Hc)
      as [Hw1 [Hid1 [Hp1 [B0 [Hrs0 Hblk0]]]]].
    destruct (IH _ _ _ _ _ Hwds Hs) as [Hw2 [Hid2 [Hp2 [Bd' [Hacc Hblk']]]]].
    repeat split.
    + constructor; assumption.
    + simpl. f_equal; assumption.
    + simpl. f_equal; assumption.
    + exists (fun j => match j with 0 => B0 | Datatypes.S j' => Bd' j' end). split.
      * rewrite Hacc, Hrs0. simpl length.
        change (seq 0 (Datatypes.S (length ds))) with (0 :: seq 1 (length ds)).
        rewrite <- seq_shift, map_cons, map_map. simpl concat.
        rewrite app_assoc. reflexivity.
      * intros [|j] d0 k Hn Hk; simpl in Hn.
        -- inversion Hn; subst. apply Hblk0. exact Hk.
        -- apply (Hblk' j d0 k Hn Hk).
Qed.

(** All lines, each against all dictionaries. *)
Lemma search_lines_blocks (fuel : nat) (opts : SearchOptions E) :
  forall lines (S : Searcherer E) ln acc S' acc',
  Forall wf_dict (s_dictionaries S) ->
  search_lines fuel S opts ln lines acc = Some (S', acc', None) ->
  Forall wf_dict (s_dictionaries S') /\
  map d_id (s_dictionaries S') = map d_id (s_dictionaries S) /\
  map d_patterns (s_dictionaries S') = map d_patterns (s_dictionaries S) /\
  exists B, acc' = (acc ++ nested_blocks (length lines) (s_dictionaries S) B)%list /\
    (forall i line j d k, nth_error lines i = Some line -> nth_error (s_dictionaries S) j = Some d ->
       k < length (d_patterns d) -> block_ok (ln + i) line d k (B i j k)).
Proof.
  induction lines as [|line lines IH]; intros S ln acc S' acc' Hw H; simpl in H.
  - inversion H; subst. repeat split; auto.
    exists (fun _ _ _ => []). split.
    + unfold nested_blocks. simpl. rewrite app_nil_r. reflexivity.
    + intros [|i]; discriminate.
  - unfold searchLine in H. destruct (opt_filter opts); [discriminate|].
    destruct (search_dicts fuel _ (s_dictionaries S) (s_events S) acc)
      as [[[[ds evs] acc1] err1]|] eqn:Hs; [|discriminate].
    destruct err1 as [e|]; [discriminate|].
    destruct (search_dicts_blocks fuel _ _ _ _ _ _ _ Hw Hs)
      as [Hw1 [Hid1 [Hp1 [Bd [Hacc1 Hblk1]]]]].
    destruct (IH {| s_dictionaries := ds; s_events := evs |} _ _ _ _ Hw1 H) as [Hw2 [Hid2 [Hp2 [B' [Hacc2 Hblk2]]]]].
    simpl in Hw2, Hid2, Hp2, Hacc2, Hblk2.
    repeat split; auto; try congruence.
    exists (fun i => match i with 0 => Bd | Datatypes.S i' => B' i' end). split.
    + rewrite Hacc2, Hacc1. unfold nested_blocks. simpl length.
      change (seq 0 (Datatypes.S (length lines))) with (0 :: seq 1 (length lines)).
      rewrite <- seq_shift, map_cons, map_map. simpl concat.
      rewrite <- app_assoc. f_equal. f_equal.
      assert (Hl : length ds = length (s_dictionaries S)).
      { rewrite <- (length_map d_id ds), Hid1, length_map. reflexivity. }
      rewrite Hl. f_equal. apply map_ext. intros i. f_equal. apply map_ext. intros j.
      rewrite (npatterns_same _ _ j Hp1). reflexivity.
    + intros [|i] line0 j d k Hn Hd Hk; simpl in Hn.
      * inversion Hn; subst. rewrite Nat.add_0_r. apply (Hblk1 j d k Hd Hk).
      * destruct (nth_same_dict _ _ j d Hid1 Hp1 Hd) as [d' [Hd' [Hi' Hp']]].
        replace (ln + Datatypes.S i) with (Datatypes.S ln + i) by lia.
        eapply block_ok_transfer; [exact Hi' | exact Hp' |].
        apply (Hblk2 i line0 j d' k Hn Hd'). rewrite Hp'. exact Hk.
Qed.

End LineBlocks.

Lemma new_Dictionary_wf {E : RegExpEngine} id opts (d : Dictionary E) :
  new_Dictionary id opts = Ok d -> wf_dict d.
Proof.
  unfold new_Dictionary. destruct (new_Set _); simpl; intros H; inversion H; subst.
  intros cs m Hm. discriminate.
Qed.

(** ** Claims *)

Section Claims.
Context {E : RegExpEngine}.

(** C1 (code_bug).  With [options.filter] a function, [search] on any
    non-empty text throws [TypeError] after the ["search"] event:
    [_searchLine] calls [filter] on the [Set] of dictionaries, which has no
    such method, so no result list is returned at all. *)
Theorem search_with_filter_function_throws (fuel : nat) (S : Searcherer E) (v : string)
    (opts : SearchOptions E) (f : Dictionary E -> bool) :
  v <> EmptyString -> opt_filter opts = Some f ->
  search fuel S (Some v) opts = Some (Throw TypeError, emit S (EvSearch v)).
Proof.
  intros Hv Hf.
  destruct v as [|a v']; [congruence|].
  unfold search, split_lines.
  destruct (split_aux_cons (String a v') EmptyString) as [l [ls Hs]].
  rewrite Hs. simpl. unfold searchLine. rewrite Hf. reflexivity.
Qed.

(** C2 (corrected).  When the text decodes to a JSON string, [parse] does
    not use that string: whatever the string, the code after [JSON.parse]
    builds the dictionary from [defaults] alone, and without
    [defaults.patterns] its pattern set is empty. *)
Theorem parse_json_string_uses_defaults (id : nat) (defaults : DictionaryOptions) :
  (forall s, Dictionary_of_data (E:=E) id (JStr s) defaults
             = (d <- new_Dictionary id defaults ;; Ok (Some d))) /\
  (forall str s, JSON_parse str = Some (JStr s) ->
     Dictionary_parse (E:=E) id (Some str) defaults = (d <- new_Dictionary id defaults ;; Ok (Some d))) /\
  (opt_patterns defaults = None -> forall str s, JSON_parse str = Some (JStr s) ->
     exists d, Dictionary_parse (E:=E) id (Some str) defaults = Ok (Some d) /\ d_patterns d = []).
Proof.
  destruct defaults as [n p].
  assert (H1 : forall s, Dictionary_of_data (E:=E) id (JStr s) {| opt_name := n; opt_patterns := p |}
             = (d <- new_Dictionary id {| opt_name := n; opt_patterns := p |} ;; Ok (Some d)))
    by reflexivity.
  split; [exact H1|]. split.
  - intros str s Hp. simpl. rewrite Hp. apply H1.
  - simpl. intros -> str s Hp. rewrite Hp. eexists. split; reflexivity.
Qed.

(** C10 (code_bug).  For a JSON array, [parse] calls
    [new Dictionary({ patterns: data })] without the caller's
    [defaults.name]: the dictionary is named ["<unknown>"] whatever the
    defaults are. *)
Theorem parse_array_ignores_default_name (id : nat) (str : string) (l : list json)
    (defaults : DictionaryOptions) (d : Dictionary E) :
  JSON_parse str = Some (JArr l) ->
  Dictionary_parse id (Some str) defaults = Ok (Some d) ->
  d_name d = JStr "<unknown>".
Proof.
  intros Hp Hd. simpl in Hd. rewrite Hp in Hd.
  unfold new_Dictionary in Hd. simpl in Hd.
  destruct (new_Set (JArr l)); simpl in Hd; inversion Hd; reflexivity.
Qed.

(** C8 (code_bug).  For a readable file, [searchFileSync] throws [TypeError]
    without reading it, since it calls [fs.readFile] without a callback;
    the asynchronous [searchFile] does search the decoded contents. *)
Theorem searchFileSync_throws (fs : string -> option string) (decode : string -> string -> res string)
    (fuel : nat) (S : Searcherer E) (filePath : string) (opts : SearchOptions E) (bytes : string) :
  fs filePath = Some bytes ->
  searchFileSync decode fuel S filePath opts = Some (Throw TypeError, S) /\
  searchFile fs decode fuel S filePath opts = searchFile_ decode fuel S bytes opts.
Proof.
  intros Hf. split.
  - reflexivity.
  - unfold searchFile, readFile. rewrite Hf. reflexivity.
Qed.

(** C6 (confirmed).  Every result, yielded by [Dictionary#search] or
    returned by [Searcherer#search], satisfies
    [line.substring(columnNumber, columnNumber + match.length) === match]. *)
Theorem results_lie_in_line :
  engine_bounded E ->
  (forall (g : gen) (d : Dictionary E) r g' d',
      gen_next g d = (Yield r, g', d') -> result_in_line r) /\
  (forall fuel (S : Searcherer E) v opts rs S',
      search fuel S v opts = Some (Ok rs, S') -> Forall result_in_line rs).
Proof.
  intros hb. split.
  - intros g d r g' d'. apply gen_next_yield_in_line. exact hb.
  - intros fuel S v opts rs S' H. unfold search in H.
    destruct v as [[|a v']|]; try (inversion H; subst; constructor).
    destruct (search_lines fuel _ opts 0 _ []) as [[[S2 acc] [e|]]|] eqn:Hs; inversion H; subst.
    eapply search_lines_in_line; [exact hb | constructor | exact Hs].
Qed.

(** C7 (corrected).  The results of [search] on a non-empty text are the
    concatenation, line after line, dictionary after dictionary (in the
    [Set]'s order), pattern after pattern (in the pattern [Set]'s order), of
    blocks; each block holds the results of one pattern of one dictionary on
    one line, in ascending column order.  Columns are therefore ascending
    only within one pattern, not within a dictionary.  On ["cat\ndog\ncat"]
    with the pattern ["cat"] the results are on line 0, then line 2. *)
Theorem search_results_order :
  (forall fuel (S : Searcherer E) v opts rs S',
     engine_bounded E -> Forall wf_dict (s_dictionaries S) -> v <> EmptyString ->
     search fuel S (Some v) opts = Some (Ok rs, S') ->
     exists B, rs = nested_blocks (length (split_lines v)) (s_dictionaries S) B /\
       (forall i line j d k, nth_error (split_lines v) i = Some line ->
          nth_error (s_dictionaries S) j = Some d -> k < length (d_patterns d) ->
          block_ok i line d k (B i j k))) /\
  search_positions (search 10 (searcherer_of [dict_of (E:=mini_engine) 0 ["cat"]])
                      (Some cat_text) (plain_options true))
    = Some [(0, 0, "cat"); (2, 0, "cat")].
Proof.
  split; [|vm_compute; reflexivity].
  intros fuel S v opts rs S' hb Hw Hne H. unfold search in H.
  destruct v as [|a v']; [contradiction|].
  destruct (search_lines fuel _ opts 0 _ []) as [[[S2 acc] [e|]]|] eqn:Hs;
    [discriminate| |discriminate].
  injection H as Hrs HS. subst acc.
  destruct (search_lines_blocks hb fuel opts _ (emit S (EvSearch (String a v'))) 0 [] S2 rs Hw Hs)
    as [_ [_ [_ [B [Hrs Hblk]]]]].
  exists B. split; [exact Hrs|].
  intros i line j d k Hi Hj Hk. exact (Hblk i line j d k Hi Hj Hk).
Qed.

(** C9 (confirmed).  A dictionary with a pattern that does not compile is
    constructed without error and with nothing compiled; calling [search]
    only creates the generator, and its first step, the first compilation
    for that case-sensitivity mode, throws [SyntaxError] and leaves the
    dictionary as it was; [Searcherer#search] lets the error through. *)
Theorem invalid_pattern_fails_on_first_search (id : nat) (pats : list json) (p : json) (cs : bool) :
  In p pats -> re_compile E (js_to_string p) (negb cs) = None ->
  exists d,
    new_Dictionary id {| opt_name := None; opt_patterns := Some (JArr pats) |} = Ok d /\
    d_regExpMaps d = [] /\
    (forall line ln,
       let ctx := {| c_line := line; c_lineNumber := ln; c_caseSensitive := cs |} in
       Dictionary_search ctx = GStart ctx /\
       gen_next (Dictionary_search ctx) (d : Dictionary E) = (Raised SyntaxError, GDone, d)) /\
    (forall fuel v opts evs,
       0 < fuel -> v <> EmptyString -> opt_filter opts = None -> opt_caseSensitive opts = cs ->
       exists S', search fuel {| s_dictionaries := [d]; s_events := evs |} (Some v) (opts : SearchOptions E)
                  = Some (Throw SyntaxError, S')).
Proof.
  intros Hin Hc.
  assert (Hpats : truthy (Some (JArr pats)) = true) by reflexivity.
  eexists. split; [unfold new_Dictionary; simpl; reflexivity|].
  simpl. split; [reflexivity|].
  assert (Hall : compile_all (E:=E) (negb cs) (set_of_list pats) = Throw SyntaxError).
  { eapply compile_all_fails; [apply in_set_of_list; exact Hin | exact Hc]. }
  split.
  - intros line ln. split; [reflexivity|].
    simpl. unfold createRegExpMap. simpl. rewrite Hall. reflexivity.
  - intros fuel v opts evs Hf Hv Hflt Hcs.
    destruct v as [|a v']; [congruence|].
    destruct fuel as [|fuel]; [lia|].
    unfold search, split_lines.
    destruct (split_aux_cons (String a v') EmptyString) as [l [ls Hs]].
    rewrite Hs. simpl. unfold searchLine. rewrite Hflt. simpl.
    unfold createRegExpMap. simpl. rewrite Hcs, Hall. simpl.
    eexists. reflexivity.
Qed.

End Claims.

(** C3 (code_bug).  The sequence of [search] for the pattern ["a*"] on the
    line ["b"] never ends: the empty match at index 0 leaves [lastIndex] at
    0, so every [exec] finds it again; no amount of steps consumes it. *)
Theorem empty_match_sequence_infinite (n : nat) :
  consume n (Dictionary_search (line_context "b" false)) (dict_of (E:=mini_engine) 0 ["a*"]) = None.
Proof.
  assert (Hs : exists r d1,
    gen_next (Dictionary_search (line_context "b" false)) (dict_of (E:=mini_engine) 0 ["a*"])
      = (Yield r, GLoop (line_context "b" false) 0, d1) /\
    gen_next (GLoop (line_context "b" false) 0) d1 = (Yield r, GLoop (line_context "b" false) 0, d1)).
  { do 2 eexists. split; reflexivity. }
  destruct Hs as [r [d1 [H0 H1]]].
  assert (Hloop : forall m, consume m (GLoop (line_context "b" false) 0) d1 = None).
  { induction m as [|m IH]; [reflexivity|]. rewrite consume_S, H1, IH. reflexivity. }
  destruct n as [|n]; [reflexivity|]. rewrite consume_S, H0, Hloop. reflexivity.
Qed.

(** C4 (code_bug).  Abandoning the sequence of [search] after its first
    result leaves the cached [RegExp]'s [lastIndex] at 1, and the next full
    [search] of the same line misses the match at column 0. *)
Theorem partial_consumption_changes_next_search :
  option_map fst (full_run 10 (Dictionary_search (line_context "aa" false))
                    (dict_of (E:=mini_engine) 0 ["a"]))
    = Some [(0, 0, "a"); (0, 1, "a")] /\
  (let '(_, _, d1) := take 1 (Dictionary_search (line_context "aa" false))
                         (dict_of (E:=mini_engine) 0 ["a"]) in
   option_map fst (full_run 10 (Dictionary_search (line_context "aa" false)) d1)
     = Some [(0, 1, "a")]).
Proof. vm_compute. split; reflexivity. Qed.

(** C5 (code_bug).  On a dictionary whose earlier sequence was abandoned
    after one result, two successive full [search]es of the line ["aa"]
    differ: the first starts at the stale [lastIndex] 1, the second (after
    [exec] reset it to 0) from the start. *)
Theorem successive_searches_differ :
  let '(_, _, d1) := take 1 (Dictionary_search (line_context "aa" false))
                        (dict_of (E:=mini_engine) 0 ["a"]) in
  match full_run 10 (Dictionary_search (line_context "aa" false)) d1 with
  | Some (first, d2) =>
      first = [(0, 1, "a")] /\
      option_map fst (full_run 10 (Dictionary_search (line_context "aa" false)) d2)
        = Some [(0, 0, "a"); (0, 1, "a")]
  | None => False
  end.
Proof. vm_compute. split; reflexivity. Qed.

(** ** Concrete instances *)

(** [H : t = v] is impossible when the boolean test [f] holds of [t],
    evaluated, and fails for [v]. *)
Ltac refute_with f H :=
  let K := fresh "K" in
  match type of H with
  | ?t = _ =>
      assert (K : f t = true) by (vm_compute; reflexivity);
      rewrite H in K; cbv beta iota in K; discriminate K
  end.

(** C7: a dictionary with the patterns ["b"] and ["a"] on the line ["ab"]
    yields column 1 before column 0. *)
Lemma search_order_counterexample :
  search_positions (search 10 (searcherer_of [dict_of (E:=mini_engine) 0 ["b"; "a"]])
                      (Some "ab") (plain_options true))
    = Some [(0, 1, "b"); (0, 0, "a")].
Proof. vm_compute. reflexivity. Qed.

(** C2: the text ["\"foo\""] with no defaults gives a dictionary with no
    pattern. *)
Lemma parse_json_string_counterexample :
  match Dictionary_parse (E:=mini_engine) 0 (Some (dq ++ "foo" ++ dq)) no_options with
  | Ok (Some d) => d_patterns d = []
  | _ => False
  end.
Proof. vm_compute. reflexivity. Qed.

Lemma search_with_filter_function_throws_witness :
  "cat" <> EmptyString /\ opt_filter (filter_options (E:=mini_engine) (name_is "a")) = Some (name_is "a") /\
  search 10 ab_searcherer (Some "cat") (filter_options (name_is "a"))
    = Some (Throw TypeError, emit ab_searcherer (EvSearch "cat")).
Proof.
  split; [discriminate|]. split; [reflexivity|].
  apply (search_with_filter_function_throws 10 ab_searcherer "cat"
           (filter_options (name_is "a")) (name_is "a")); [discriminate | reflexivity].
Defined.

Lemma parse_json_string_uses_defaults_witness :
  opt_patterns no_options = None /\ JSON_parse (dq ++ "foo" ++ dq) = Some (JStr "foo") /\
  exists d, Dictionary_parse (E:=mini_engine) 0 (Some (dq ++ "foo" ++ dq)) no_options = Ok (Some d) /\
            d_patterns d = [].
Proof.
  split; [reflexivity|]. split; [reflexivity|].
  apply (proj2 (proj2 (parse_json_string_uses_defaults (E:=mini_engine) 0 no_options))
           eq_refl (dq ++ "foo" ++ dq) "foo").
  reflexivity.
Defined.

Lemma parse_array_ignores_default_name_witness :
  JSON_parse cat_array_text = Some (JArr [JStr "cat"]) /\
  Dictionary_parse (E:=mini_engine) 0 (Some cat_array_text) file_defaults
    = Ok (Some (@mkDictionary mini_engine 0 (JStr "<unknown>") [JStr "cat"] [])) /\
  d_name (@mkDictionary mini_engine 0 (JStr "<unknown>") [JStr "cat"] []) = JStr "<unknown>".
Proof.
  split; [reflexivity|]. split; [reflexivity|].
  apply (parse_array_ignores_default_name 0 cat_array_text [JStr "cat"] file_defaults);
    reflexivity.
Defined.

Lemma searchFileSync_throws_witness :
  one_file_fs "animals.txt" "cat" "animals.txt" = Some "cat" /\
  searchFileSync ascii_decode 10 (searcherer_of [dict_of (E:=mini_engine) 0 ["cat"]])
    "animals.txt" (plain_options true)
    = Some (Throw TypeError, searcherer_of [dict_of (E:=mini_engine) 0 ["cat"]]) /\
  searchFile (one_file_fs "animals.txt" "cat") ascii_decode 10
    (searcherer_of [dict_of (E:=mini_engine) 0 ["cat"]]) "animals.txt" (plain_options true)
    = searchFile_ ascii_decode 10 (searcherer_of [dict_of (E:=mini_engine) 0 ["cat"]]) "cat"
        (plain_options true).
Proof.
  split; [reflexivity|].
  apply (searchFileSync_throws (one_file_fs "animals.txt" "cat") ascii_decode 10
           (searcherer_of [dict_of (E:=mini_engine) 0 ["cat"]]) "animals.txt"
           (plain_options true) "cat").
  reflexivity.
Defined.

Lemma results_lie_in_line_witness :
  engine_bounded mini_engine /\
  (forall fuel (S : Searcherer mini_engine) v opts rs S',
      search fuel S v opts = Some (Ok rs, S') -> Forall result_in_line rs).
Proof.
  split; [exact mini_engine_bounded|].
  apply (proj2 (results_lie_in_line (E:=mini_engine) mini_engine_bounded)).
Defined.

Lemma search_results_order_witness :
  engine_bounded mini_engine /\
  match search 10 (searcherer_of [dict_of (E:=mini_engine) 0 ["b"; "a"]]) (Some "ab")
          (plain_options true) with
  | Some (Ok rs, _) =>
      exists B, rs = nested_blocks 1 [dict_of (E:=mini_engine) 0 ["b"; "a"]] B /\
        (forall i line j d k, nth_error (split_lines "ab") i = Some line ->
           nth_error [dict_of (E:=mini_engine) 0 ["b"; "a"]] j = Some d ->
           k < length (d_patterns d) -> block_ok i line d k (B i j k))
  | _ => False
  end.
Proof.
  split; [exact mini_engine_bounded|].
  destruct (search 10 (searcherer_of [dict_of (E:=mini_engine) 0 ["b"; "a"]]) (Some "ab")
              (plain_options true)) as [[[rs|e] S']|] eqn:Hs.
  - apply (proj1 (search_results_order (E:=mini_engine)) 10
             (searcherer_of [dict_of 0 ["b"; "a"]]) "ab" (plain_options true) rs S'
             mini_engine_bounded).
    + constructor; [|constructor]. apply (new_Dictionary_wf 0
        {| opt_name := None; opt_patterns := Some (JArr (map JStr ["b"; "a"])) |}).
      reflexivity.
    + discriminate.
    + exact Hs.
  - refute_with (fun o : option (res (list Result) * Searcherer mini_engine) =>
                   match o with Some (Ok _, _) => true | _ => false end) Hs.
  - refute_with (fun o : option (res (list Result) * Searcherer mini_engine) =>
                   match o with Some (Ok _, _) => true | _ => false end) Hs.
Defined.

Lemma invalid_pattern_fails_on_first_search_witness :
  In (JStr "(") [JStr "("] /\ re_compile mini_engine (js_to_string (JStr "(")) (negb false) = None /\
  exists d, new_Dictionary 0 {| opt_name := None; opt_patterns := Some (JArr [JStr "("]) |} = Ok d /\
    exists S', search 1 {| s_dictionaries := [d]; s_events := [] |} (Some "x") (plain_options (E:=mini_engine) false)
                 = Some (Throw SyntaxError, S').
Proof.
  split; [left; reflexivity|]. split; [vm_compute; reflexivity|].
  destruct (invalid_pattern_fails_on_first_search (E:=mini_engine) 0 [JStr "("] (JStr "(") false
              ltac:(left; reflexivity) ltac:(vm_compute; reflexivity)) as [d [Hd [_ [_ Hs]]]].
  exists d. split; [exact Hd|].
  apply (Hs 1 "x" (plain_options false) []); [lia | discriminate | reflexivity | reflexivity].
Defined.

(** ** Further properties of the code *)

(** *** Sets of patterns *)

Lemma svz_sym (a b : json) : same_value_zero a b = same_value_zero b a.
Proof.
  destruct a, b; simpl; try reflexivity.
  - destruct b, b0; reflexivity.
  - apply Z.eqb_sym.
  - apply String.eqb_sym.
Qed.

Lemma svz_refl_str (s : string) : same_value_zero (JStr s) (JStr s) = true.
Proof. simpl. apply String.eqb_refl. Qed.

Lemma set_add_spec (x : json) (l : list json) :
  set_add x l = if existsb (same_value_zero x) l then l else (l ++ [x])%list.
Proof.
  induction l as [|y l IH]; simpl; [reflexivity|].
  destruct (same_value_zero x y); simpl; [reflexivity|].
  rewrite IH. destruct (existsb (same_value_zero x) l); reflexivity.
Qed.

Lemma existsb_set_add (p x : json) (l : list json) :
  existsb (same_value_zero p) (set_add x l) = same_value_zero p x || existsb (same_value_zero p) l.
Proof.
  rewrite set_add_spec. destruct (existsb (same_value_zero x) l) eqn:H.
  - destruct (same_value_zero p x) eqn:Hp; simpl; [|reflexivity].
    apply existsb_exists in H. destruct H as [y [Hy Hxy]]. apply svz_eq in Hxy. subst y.
    apply existsb_exists. exists x. split; assumption.
  - rewrite existsb_app. simpl. rewrite orb_false_r, orb_comm. reflexivity.
Qed.

Lemma existsb_fold_set_add (p : json) (l acc : list json) :
  existsb (same_value_zero p) (fold_left (fun acc x => set_add x acc) l acc)
  = existsb (same_value_zero p) l || existsb (same_value_zero p) acc.
Proof.
  revert acc; induction l as [|x l IH]; intros acc; simpl; [reflexivity|].
  rewrite IH, existsb_set_add.
  destruct (same_value_zero p x), (existsb (same_value_zero p) l),
           (existsb (same_value_zero p) acc); reflexivity.
Qed.

Lemma existsb_set_of_list (p : json) (l : list json) :
  existsb (same_value_zero p) (set_of_list l) = existsb (same_value_zero p) l.
Proof. unfold set_of_list. rewrite existsb_fold_set_add. simpl. apply orb_false_r. Qed.

Lemma in_set_add_inv (z x : json) (l : list json) : In z (set_add x l) -> z = x \/ In z l.
Proof.
  rewrite set_add_spec. destruct (existsb _ l); [auto|].
  intros H. apply in_app_or in H. destruct H as [H|[H|[]]]; auto.
Qed.

Lemma in_set_of_list_inv (z : json) (l : list json) : In z (set_of_list l) -> In z l.
Proof.
  unfold set_of_list.
  assert (G : forall acc, In z (fold_left (fun acc x => set_add x acc) l acc) -> In z l \/ In z acc).
  { induction l as [|x l IH]; intros acc H; simpl in *; [auto|].
    destruct (IH _ H) as [H1|H1]; [auto|].
    apply in_set_add_inv in H1. destruct H1; auto. }
  intros H. destruct (G [] H) as [H1|[]]. exact H1.
Qed.

Lemma fop_snoc (R : json -> json -> Prop) (l : list json) (x : json) :
  ForallOrdPairs R l -> Forall (fun y => R y x) l -> ForallOrdPairs R (l ++ [x])%list.
Proof.
  induction l as [|y l IH]; intros H Hf; simpl.
  - constructor; constructor.
  - inversion H; subst. inversion Hf; subst. constructor.
    + apply Forall_app. split; [assumption|]. constructor; [assumption | constructor].
    + apply IH; assumption.
Qed.

Lemma svz_distinct_set_add (x : json) (l : list json) :
  svz_distinct l -> svz_distinct (set_add x l).
Proof.
  unfold svz_distinct. intros H. rewrite set_add_spec.
  destruct (existsb (same_value_zero x) l) eqn:Hx; [exact H|].
  apply fop_snoc; [exact H|]. apply Forall_forall. intros y Hy.
  rewrite svz_sym. destruct (same_value_zero x y) eqn:Hxy; [|reflexivity].
  exfalso. assert (existsb (same_value_zero x) l = true) by (apply existsb_exists; eauto).
  congruence.
Qed.

Lemma svz_distinct_set_of_list (l : list json) : svz_distinct (set_of_list l).
Proof.
  unfold set_of_list.
  assert (G : forall acc, svz_distinct acc ->
              svz_distinct (fold_left (fun acc x => set_add x acc) l acc)).
  { induction l as [|x l IH]; intros acc H; simpl; [exact H|].
    apply IH. apply svz_distinct_set_add. exact H. }
  apply G. constructor.
Qed.

Lemma fop_before (R : json -> json -> Prop) (a b : list json) (x : json) :
  ForallOrdPairs R (a ++ x :: b)%list -> Forall (fun y => R y x) a.
Proof.
  induction a as [|y a IH]; simpl; intros H; [constructor|].
  inversion H; subst. constructor.
  - rewrite Forall_forall in H2. apply H2. apply in_or_app. right. left. reflexivity.
  - apply IH. assumption.
Qed.

Lemma set_of_list_distinct_id (l : list json) : svz_distinct l -> set_of_list l = l.
Proof.
  unfold set_of_list, svz_distinct.
  assert (G : forall acc, ForallOrdPairs (fun a b => same_value_zero a b = false) (acc ++ l)%list ->
              fold_left (fun acc x => set_add x acc) l acc = (acc ++ l)%list).
  { induction l as [|x l IH]; intros acc H; simpl; [rewrite app_nil_r; reflexivity|].
    assert (Hx : existsb (same_value_zero x) acc = false).
    { apply fop_before in H. destruct (existsb (same_value_zero x) acc) eqn:E1; [|reflexivity].
      apply existsb_exists in E1. destruct E1 as [y [Hy Hxy]].
      rewrite Forall_forall in H. specialize (H y Hy). simpl in H. rewrite svz_sym in H. congruence. }
    rewrite set_add_spec, Hx. rewrite IH; [rewrite <- app_assoc; reflexivity|].
    rewrite <- app_assoc. exact H. }
  intros H. apply (G []). exact H.
Qed.

Lemma chars_of_spec (s : string) (p : json) :
  In p (chars_of s) <-> exists c, p = JStr (String c EmptyString) /\ In c (list_ascii_of_string s).
Proof.
  induction s as [|a s IH]; simpl.
  - split; [intros []|]. intros [c [_ []]].
  - split.
    + intros [H|H]; [exists a; auto|]. apply IH in H. destruct H as [c [H1 H2]]. eauto.
    + intros [c [H1 [H2|H2]]]; [subst; auto|]. right. apply IH. eauto.
Qed.

(** *** Names, patterns and parsing *)




(** [new Dictionary({ name, patterns })] with an array of patterns: the
    pattern [Set] holds each element once (SameValueZero), [has] answers
    membership in the array, and an array without duplicates is kept as it
    is, in order. *)
Theorem new_Dictionary_pattern_set {E : RegExpEngine} (id : nat) (name : jsv) (l : list json) :
  exists d : Dictionary E,
    new_Dictionary id {| opt_name := name; opt_patterns := Some (JArr l) |} = Ok d /\
    (forall p, Dictionary_has d p = existsb (same_value_zero p) l) /\
    svz_distinct (d_patterns d) /\
    (svz_distinct l -> d_patterns d = l).
Proof.
  eexists. split; [reflexivity|]. simpl. split; [|split].
  - intros p. unfold Dictionary_has. simpl. apply existsb_set_of_list.
  - apply svz_distinct_set_of_list.
  - apply set_of_list_distinct_id.
Qed.

(** A constructed dictionary always has a truthy name ([options.name] when
    truthy, ["<unknown>"] otherwise), so [toString] returns the name and
    never falls back to [Object.prototype.toString]. *)
Theorem new_Dictionary_name {E : RegExpEngine} (id : nat) (opts : DictionaryOptions) (d : Dictionary E) :
  new_Dictionary id opts = Ok d ->
  truthy (Some (d_name d)) = true /\ Dictionary_toString d = d_name d /\
  (truthy (opt_name opts) = true -> Some (d_name d) = opt_name opts) /\
  (truthy (opt_name opts) = false -> d_name d = JStr "<unknown>").
Proof.
  destruct opts as [[v|] pv]; unfold new_Dictionary, js_or; cbn [opt_name opt_patterns];
    [destruct (truthy (Some v)) eqn:Ht|];
    destruct (new_Set _); cbn [res_bind]; try discriminate; intros H; inversion H; subst; clear H;
    unfold Dictionary_toString; cbn [d_name]; try rewrite Ht;
    (split; [reflexivity|]); (split; [reflexivity|]); split; intros; cbn in *; congruence.
Qed.

(** The [patterns] option: a falsy value gives no pattern; a non-empty
    string gives its distinct characters (a string is iterated by
    character); a truthy value that is neither a string nor an array makes
    [new Set] throw [TypeError]. *)
Theorem new_Dictionary_patterns_value {E : RegExpEngine} (id : nat) (name v : jsv) :
  (truthy v = false ->
     exists d : Dictionary E, new_Dictionary id {| opt_name := name; opt_patterns := v |} = Ok d /\
                              d_patterns d = []) /\
  (forall str, v = Some (JStr str) -> str <> EmptyString ->
     exists d : Dictionary E, new_Dictionary id {| opt_name := name; opt_patterns := v |} = Ok d /\
       Forall (fun p => exists c, p = JStr (String c EmptyString) /\ In c (list_ascii_of_string str))
              (d_patterns d) /\
       (forall c, In c (list_ascii_of_string str) ->
                  Dictionary_has d (JStr (String c EmptyString)) = true)) /\
  (forall x, v = Some x -> truthy v = true -> (forall str, x <> JStr str) -> (forall l, x <> JArr l) ->
     new_Dictionary (E:=E) id {| opt_name := name; opt_patterns := v |} = Throw TypeError).
Proof.
  split; [|split].
  - intros Hf. unfold new_Dictionary, js_or. simpl. rewrite Hf. eexists. split; reflexivity.
  - intros str -> Hne. unfold new_Dictionary, js_or. simpl.
    destruct (String.eqb str EmptyString) eqn:He; [apply String.eqb_eq in He; contradiction|].
    simpl. eexists. split; [reflexivity|]. simpl. split.
    + apply Forall_forall. intros p Hp. apply in_set_of_list_inv in Hp. apply chars_of_spec. exact Hp.
    + intros c Hc. unfold Dictionary_has. simpl. rewrite existsb_set_of_list.
      apply existsb_exists. exists (JStr (String c EmptyString)). split.
      * apply chars_of_spec. eauto.
      * apply svz_refl_str.
  - intros x -> Ht Hs Hl. unfold new_Dictionary, js_or. cbn [opt_name opt_patterns]. rewrite Ht.
    destruct x; simpl; try reflexivity.
    + exfalso. eapply Hs. reflexivity.
    + exfalso. eapply Hl. reflexivity.
Qed.


(** [findDictionary(name)] returns the first dictionary, in insertion order,
    whose name is strictly equal to [name], and [null] exactly when there is
    none. *)
Theorem findDictionary_first {E : RegExpEngine} (S : Searcherer E) (name : json) :
  (forall d, findDictionary S name = Some d ->
     exists pre post, s_dictionaries S = (pre ++ d :: post)%list /\
       js_strict_eq (d_name d) name = true /\
       Forall (fun d0 => js_strict_eq (d_name d0) name = false) pre) /\
  (findDictionary S name = None <->
     Forall (fun d0 => js_strict_eq (d_name d0) name = false) (s_dictionaries S)).
Proof.
  unfold findDictionary. induction (s_dictionaries S) as [|d0 ds IH]; simpl.
  - split; [discriminate|]. split; constructor.
  - destruct IH as [IH1 IH2]. destruct (js_strict_eq (d_name d0) name) eqn:Hd.
    + split.
      * intros d H. inversion H; subst. exists [], ds. repeat split; auto.
      * split; [discriminate|]. intros H. inversion H. congruence.
    + split.
      * intros d H. destruct (IH1 d H) as [pre [post [H1 [H2 H3]]]].
        exists (d0 :: pre), post. rewrite H1. repeat split; auto.
      * rewrite IH2. split; [intros H; constructor; auto | intros H; inversion H; auto].
Qed.

(** [addDictionary]: a dictionary object already in the [Set] leaves the
    searcherer as it is; a new one is appended and, when no earlier
    dictionary has its (string) name, [findDictionary] then returns it; a
    string or an array is turned into a new dictionary named ["<unknown>"]
    whose patterns are the distinct characters or elements. *)
Theorem addDictionary_spec {E : RegExpEngine} (id : nat) (S : Searcherer E) :
  (forall d, existsb (fun d' => Nat.eqb (d_id d') (d_id d)) (s_dictionaries S) = true ->
     addDictionary id S (DArgDictionary d) = Ok (S, d)) /\
  (forall d n, d_name d = JStr n ->
     Forall (fun d0 => d_id d0 <> d_id d /\ d_name d0 <> JStr n) (s_dictionaries S) ->
     exists S', addDictionary id S (DArgDictionary d) = Ok (S', d) /\
       s_dictionaries S' = (s_dictionaries S ++ [d])%list /\ s_events S' = s_events S /\
       findDictionary S' (JStr n) = Some d) /\
  (forall a, (exists str, a = DArgString str) \/ (exists l, a = DArgArray l) ->
     Forall (fun d0 => d_id d0 <> id) (s_dictionaries S) ->
     exists S' d, addDictionary id S a = Ok (S', d) /\
       s_dictionaries S' = (s_dictionaries S ++ [d])%list /\
       d_id d = id /\ d_name d = JStr "<unknown>" /\
       d_patterns d = set_of_list (match a with
                                   | DArgString str => chars_of str
                                   | DArgArray l => l
                                   | DArgDictionary d => d_patterns d
                                   end)).
Proof.
  assert (Hfresh : forall (ds : list (Dictionary E)) i,
            Forall (fun d0 => d_id d0 <> i) ds ->
            existsb (fun d' => Nat.eqb (d_id d') i) ds = false).
  { intros ds i H. induction H as [|d0 ds H0 _ IH]; simpl; [reflexivity|].
    apply Nat.eqb_neq in H0. rewrite H0. exact IH. }
  split; [|split].
  - intros d H. unfold addDictionary, add_dictionary_to_set; cbn [res_bind]. rewrite H. reflexivity.
  - intros d n Hn Hall. unfold addDictionary, add_dictionary_to_set; cbn [res_bind].
    rewrite Hfresh by (eapply Forall_impl; [|exact Hall]; intros d0 [H _]; exact H).
    eexists. split; [reflexivity|]. simpl. repeat split.
    unfold findDictionary. simpl. induction Hall as [|d0 ds [_ H0] _ IH]; simpl.
    + unfold js_strict_eq. rewrite Hn, svz_refl_str. reflexivity.
    + destruct (js_strict_eq (d_name d0) (JStr n)) eqn:He; [|exact IH].
      apply svz_eq in He. contradiction.
  - intros a Ha Hall.
    destruct Ha as [[str ->]|[l ->]]; unfold addDictionary, new_Dictionary, js_or; cbn [opt_name opt_patterns].
    + destruct (truthy (Some (JStr str))) eqn:Ht; cbn [res_bind new_Set];
        do 2 eexists; (split; [reflexivity|]); unfold add_dictionary_to_set;
        rewrite Hfresh by exact Hall; cbn [s_dictionaries d_id d_name d_patterns];
        (split; [reflexivity|]); (split; [reflexivity|]); (split; [reflexivity|]); try reflexivity.
      cbn [truthy] in Ht. apply negb_false_iff, String.eqb_eq in Ht. subst. reflexivity.
    + cbn [truthy res_bind new_Set]. do 2 eexists. split; [reflexivity|].
      unfold add_dictionary_to_set. rewrite Hfresh by exact Hall. repeat split.
Qed.

(** *** What a search changes *)

Lemma compile_all_error {E : RegExpEngine} (flagsI : bool) (ps : list json) e :
  compile_all (E:=E) flagsI ps = Throw e ->
  e = SyntaxError /\ exists p, In p ps /\ re_compile E (js_to_string p) flagsI = None.
Proof.
  induction ps as [|q ps IH]; simpl; [discriminate|].
  destruct (re_compile E (js_to_string q) flagsI) eqn:Hq.
  - destruct (compile_all flagsI ps) eqn:Hc; simpl; [discriminate|].
    intros H; inversion H; subst. destruct (IH eq_refl) as [He [p [Hp Hn]]]. eauto.
  - intros H; inversion H; subst. eauto.
Qed.

Lemma createRegExpMap_shape {E : RegExpEngine} (d d1 : Dictionary E) cs m :
  createRegExpMap d cs = Ok (m, d1) -> dict_shape d1 = dict_shape d.
Proof.
  unfold createRegExpMap. destruct (assoc_bool cs (d_regExpMaps d)).
  - intros H; inversion H; reflexivity.
  - destruct (compile_all (negb cs) (d_patterns d)); simpl; [|discriminate].
    intros H; inversion H; reflexivity.
Qed.

Lemma createRegExpMap_error {E : RegExpEngine} (d : Dictionary E) cs e :
  createRegExpMap d cs = Throw e ->
  e = SyntaxError /\ exists p, In p (d_patterns d) /\ re_compile E (js_to_string p) (negb cs) = None.
Proof.
  unfold createRegExpMap. destruct (assoc_bool cs (d_regExpMaps d)); [discriminate|].
  destruct (compile_all (negb cs) (d_patterns d)) eqn:Hc; simpl; [discriminate|].
  intros H; inversion H; subst. apply compile_all_error. exact Hc.
Qed.

Lemma loop_from_shape {E : RegExpEngine} (d : Dictionary E) ctx k rest out g d' :
  loop_from d ctx k rest = (out, g, d') ->
  dict_shape d' = dict_shape d /\ (forall e, out <> Raised e) /\
  (forall r, out = Yield r -> exists k', g = GLoop ctx k').
Proof.
  revert d k; induction rest as [|[pattern re] rest IH]; intros d k H; simpl in H.
  - inversion H; subst. repeat split; [discriminate | intros r Hr; discriminate].
  - destruct (exec re (c_line ctx)) as [m re'].
    destruct m as [[i e]|].
    + inversion H; subst. repeat split; [discriminate | eauto].
    + destruct (IH _ _ H) as [H1 H2]. split; [rewrite H1; reflexivity | exact H2].
Qed.

Lemma gen_next_shape {E : RegExpEngine} (g : gen) (d : Dictionary E) out g' d' :
  gen_next g d = (out, g', d') ->
  dict_shape d' = dict_shape d /\
  (forall e, out = Raised e -> exists ctx, g = GStart ctx /\ createRegExpMap d (c_caseSensitive ctx) = Throw e) /\
  (forall r, out = Yield r -> exists ctx k, g' = GLoop ctx k).
Proof.
  destruct g as [ctx|ctx k|]; simpl; intros H.
  - destruct (createRegExpMap d (c_caseSensitive ctx)) as [[m d1]|e] eqn:Hc.
    + apply createRegExpMap_shape in Hc. destruct (loop_from_shape _ _ _ _ _ _ _ H) as [H1 [H2 H3]].
      repeat split.
      * congruence.
      * intros e He. subst. exfalso. exact (H2 e eq_refl).
      * intros r Hr. destruct (H3 r Hr). eauto.
    + inversion H; subst. repeat split; [|discriminate]. intros e0 He0. inversion He0; subst. eauto.
  - destruct (assoc_bool (c_caseSensitive ctx) (d_regExpMaps d)).
    + destruct (loop_from_shape _ _ _ _ _ _ _ H) as [H1 [H2 H3]]. repeat split.
      * exact H1.
      * intros e He. subst. exfalso. exact (H2 e eq_refl).
      * intros r Hr. destruct (H3 r Hr). eauto.
    + inversion H; subst. repeat split; discriminate.
  - inversion H; subst. repeat split; discriminate.
Qed.

Lemma consume_shape {E : RegExpEngine} fuel (g : gen) (d : Dictionary E) rs d' err :
  consume fuel g d = Some (rs, d', err) ->
  dict_shape d' = dict_shape d /\
  (forall e, err = Some e -> exists ctx, g = GStart ctx /\ createRegExpMap d (c_caseSensitive ctx) = Throw e).
Proof.
  revert g d rs; induction fuel as [|f IH]; intros g d rs H; [discriminate|].
  rewrite consume_S in H.
  destruct (gen_next g d) as [[out g1] d1] eqn:Hn.
  destruct (gen_next_shape _ _ _ _ _ Hn) as [Hs [Hr Hy]].
  destruct out as [r| |e].
  - destruct (consume f g1 d1) as [[[rs' d2] err']|] eqn:Hc; [|discriminate].
    inversion H; subst. destruct (IH _ _ _ Hc) as [Hs' Hr'].
    split; [congruence|]. intros e He. destruct (Hr' e He) as [ctx [Hg _]].
    destruct (Hy r eq_refl) as [ctx' [k Hk]]. congruence.
  - inversion H; subst. split; [exact Hs | discriminate].
  - inversion H; subst. split; [exact Hs|]. intros e0 He0. inversion He0; subst. apply Hr. reflexivity.
Qed.

Lemma in_same_shape {E : RegExpEngine} (ds ds' : list (Dictionary E)) d :
  map dict_shape ds' = map dict_shape ds -> In d ds' ->
  exists d0, In d0 ds /\ d_patterns d0 = d_patterns d.
Proof.
  intros Hm Hd. apply (in_map dict_shape) in Hd. rewrite Hm in Hd.
  apply in_map_iff in Hd. destruct Hd as [d0 [Hs Hd0]].
  exists d0. split; [exact Hd0|]. unfold dict_shape in Hs. congruence.
Qed.

Lemma search_dicts_effects {E : RegExpEngine} fuel ctx (ds : list (Dictionary E)) :
  forall evs acc ds' evs' acc' err,
  search_dicts fuel ctx ds evs acc = Some (ds', evs', acc', err) ->
  map dict_shape ds' = map dict_shape ds /\
  (exists nw, acc' = (acc ++ nw)%list /\ evs' = (evs ++ map EvResult nw)%list) /\
  (forall e, err = Some e -> e = SyntaxError /\ exists d p, In d ds /\ In p (d_patterns d) /\
     re_compile E (js_to_string p) (negb (c_caseSensitive ctx)) = None).
Proof.
  induction ds as [|d ds IH]; intros evs acc ds' evs' acc' err H; simpl in H.
  - inversion H; subst. split; [reflexivity|]. split.
    + exists []. rewrite !app_nil_r. auto.
    + discriminate.
  - unfold Dictionary_search in H.
    destruct (consume fuel (GStart ctx) d) as [[[rs d1] [e|]]|] eqn:Hc; [| |discriminate];
      destruct (consume_shape _ _ _ _ _ _ Hc) as [Hs1 He1].
    + inversion H; subst. split; [|split].
      * simpl. congruence.
      * exists rs. auto.
      * intros e0 He0. inversion He0; subst.
        destruct (He1 e0 eq_refl) as [ctx' [Hg Hc']]. inversion Hg; subst.
        destruct (createRegExpMap_error _ _ _ Hc') as [-> [p [Hp Hn]]].
        split; [reflexivity|]. exists d, p. simpl. auto.
    + destruct (search_dicts fuel ctx ds _ _) as [[[[ds2 evs2] acc2] err2]|] eqn:Hs; [|discriminate].
      inversion H; subst. destruct (IH _ _ _ _ _ _ Hs) as [Hm [[nw [Ha Hev]] He]].
      split; [|split].
      * simpl. congruence.
      * exists (rs ++ nw)%list. rewrite Ha, Hev, map_app, !app_assoc. auto.
      * intros e0 He0. destruct (He e0 He0) as [He0' [d0 [p [Hd0 Hp]]]].
        split; [exact He0'|]. exists d0, p. simpl. auto.
Qed.

Lemma search_lines_effects {E : RegExpEngine} fuel (opts : SearchOptions E) :
  forall lines (S : Searcherer E) ln acc S' acc' err,
  search_lines fuel S opts ln lines acc = Some (S', acc', err) ->
  map dict_shape (s_dictionaries S') = map dict_shape (s_dictionaries S) /\
  (exists nw, acc' = (acc ++ nw)%list /\ s_events S' = (s_events S ++ map EvResult nw)%list) /\
  (forall e, err = Some e ->
     (opt_filter opts <> None /\ e = TypeError) \/
     (opt_filter opts = None /\ e = SyntaxError /\ exists d p, In d (s_dictionaries S) /\
        In p (d_patterns d) /\ re_compile E (js_to_string p) (negb (opt_caseSensitive opts)) = None)).
Proof.
  induction lines as [|line lines IH]; intros S ln acc S' acc' err H; simpl in H.
  - inversion H; subst. split; [reflexivity|]. split.
    + exists []. rewrite !app_nil_r. auto.
    + discriminate.
  - unfold searchLine in H. destruct (opt_filter opts) as [f|] eqn:Hf.
    + inversion H; subst. split; [reflexivity|]. split.
      * exists []. rewrite !app_nil_r. auto.
      * intros e He. inversion He; subst. left. split; [discriminate | reflexivity].
    + destruct (search_dicts fuel _ (s_dictionaries S) (s_events S) acc)
        as [[[[ds evs] acc1] err1]|] eqn:Hs; [|discriminate].
      destruct (search_dicts_effects _ _ _ _ _ _ _ _ _ Hs) as [Hm1 [[nw1 [Ha1 Hev1]] He1]].
      simpl in He1. destruct err1 as [e1|].
      * inversion H; subst. split; [|split].
        -- exact Hm1.
        -- exists nw1. auto.
        -- intros e He. inversion He; subst. right. split; [reflexivity|]. apply He1. reflexivity.
      * destruct (IH _ _ _ _ _ _ H) as [Hm2 [[nw2 [Ha2 Hev2]] He2]]. simpl in Hm2, Hev2, He2.
        split; [|split].
        -- congruence.
        -- exists (nw1 ++ nw2)%list. rewrite Ha2, Hev2, Ha1, Hev1, map_app, !app_assoc. auto.
        -- intros e He. destruct (He2 e He) as [[Hn _]|[Hn [He' [d [p [Hd [Hp Hc]]]]]]];
             [contradiction|].
           right. split; [reflexivity|]. split; [exact He'|].
           destruct (in_same_shape _ _ _ Hm1 Hd) as [d0 [Hd0 Hp0]].
           exists d0, p. rewrite Hp0. auto.
Qed.

(** A search of a missing or empty value returns [[]] and emits nothing.
    Otherwise it emits ["search"], then one ["result"] per result in the
    order of the returned list, then ["end"] with that list; when it throws,
    the ["search"] event and the ["result"] events of the results found
    before the error have been emitted, and no ["end"]. *)
Theorem search_events {E : RegExpEngine} (fuel : nat) (S : Searcherer E) (value : option string)
    (opts : SearchOptions E) (r : res (list Result)) (S' : Searcherer E) :
  search fuel S value opts = Some (r, S') ->
  ((value = None \/ value = Some EmptyString) -> r = Ok [] /\ S' = S) /\
  (forall v, value = Some v -> v <> EmptyString ->
     (forall rs, r = Ok rs ->
        s_events S' = (s_events S ++ EvSearch v :: map EvResult rs ++ [EvEnd rs])%list) /\
     (forall e, r = Throw e ->
        exists rs, s_events S' = (s_events S ++ EvSearch v :: map EvResult rs)%list)).
Proof.
  intros H. split.
  - intros [->| ->]; simpl in H; inversion H; auto.
  - intros v -> Hv. destruct v as [|c v]; [contradiction|]. unfold search in H.
    destruct (search_lines fuel _ opts 0 (split_lines (String c v)) []) as [[[S2 acc] err]|] eqn:Hs;
      [|discriminate].
    destruct (search_lines_effects _ _ _ _ _ _ _ _ _ Hs) as [_ [[nw [Ha Hev]] _]].
    simpl in Ha, Hev. subst acc.
    destruct err as [e|]; inversion H; subst; clear H; split.
    + intros rs Hr. discriminate.
    + intros e0 He0. exists nw. rewrite Hev, <- app_assoc. reflexivity.
    + intros rs Hr. inversion Hr; subst. simpl. rewrite Hev, <- !app_assoc. reflexivity.
    + intros e0 He0. discriminate.
Qed.

(** Searching never adds or removes a dictionary and never changes a
    dictionary's identity, name or patterns (only the cached [RegExp]
    maps), whatever the outcome. *)
Theorem search_keeps_dictionaries {E : RegExpEngine} (fuel : nat) (S : Searcherer E)
    (value : option string) (opts : SearchOptions E) (r : res (list Result)) (S' : Searcherer E) :
  search fuel S value opts = Some (r, S') ->
  map dict_shape (s_dictionaries S') = map dict_shape (s_dictionaries S).
Proof.
  unfold search. destruct value as [[|c v]|]; try (intros H; inversion H; reflexivity).
  destruct (search_lines fuel _ opts 0 (split_lines (String c v)) []) as [[[S2 acc] err]|] eqn:Hs;
    [|discriminate].
  destruct (search_lines_effects _ _ _ _ _ _ _ _ _ Hs) as [Hm _].
  destruct err; intros H; inversion H; subst; exact Hm.
Qed.

(** A search throws only in two ways: with a [filter] function, the
    [TypeError] of calling [filter] on a [Set]; without one, the
    [SyntaxError] of a registered dictionary's pattern that is not a valid
    regular expression under the search's flags. *)
Theorem search_error_cause {E : RegExpEngine} (fuel : nat) (S : Searcherer E)
    (value : option string) (opts : SearchOptions E) (e : js_error) (S' : Searcherer E) :
  search fuel S value opts = Some (Throw e, S') ->
  (opt_filter opts <> None /\ e = TypeError) \/
  (opt_filter opts = None /\ e = SyntaxError /\
   exists d p, In d (s_dictionaries S) /\ In p (d_patterns d) /\
     re_compile E (js_to_string p) (negb (opt_caseSensitive opts)) = None).
Proof.
  unfold search. destruct value as [[|c v]|]; try (intros H; inversion H; fail).
  destruct (search_lines fuel _ opts 0 (split_lines (String c v)) []) as [[[S2 acc] err]|] eqn:Hs;
    [|discriminate].
  destruct (search_lines_effects _ _ _ _ _ _ _ _ _ Hs) as [_ [_ He]].
  destruct err as [e'|]; intros H; inversion H; subst. apply He. reflexivity.
Qed.

(** *** Where the results of a search come from *)

Lemma in_nested_blocks {E : RegExpEngine} n (ds : list (Dictionary E)) B r :
  In r (nested_blocks n ds B) ->
  exists i j k, i < n /\ j < length ds /\ k < npatterns ds j /\ In r (B i j k).
Proof.
  unfold nested_blocks. intros H.
  apply in_concat in H. destruct H as [l1 [H1 Hr1]]. apply in_map_iff in H1.
  destruct H1 as [i [<- Hi]]. apply in_seq in Hi.
  apply in_concat in Hr1. destruct Hr1 as [l2 [H2 Hr2]]. apply in_map_iff in H2.
  destruct H2 as [j [<- Hj]]. apply in_seq in Hj.
  apply in_concat in Hr2. destruct Hr2 as [l3 [H3 Hr3]]. apply in_map_iff in H3.
  destruct H3 as [k [<- Hk]]. apply in_seq in Hk.
  exists i, j, k. repeat split; try lia. exact Hr3.
Qed.

Lemma list_ascii_of_string_append (s1 s2 : string) :
  list_ascii_of_string (s1 ++ s2) = (list_ascii_of_string s1 ++ list_ascii_of_string s2)%list.
Proof. induction s1 as [|c s1 IH]; simpl; congruence. Qed.

Lemma split_aux_no_terminator (n : nat) :
  forall s cur l, In l (split_aux s cur) -> String.length s <= n ->
  ~ In "010"%char (list_ascii_of_string cur) -> ~ In "013"%char (list_ascii_of_string cur) ->
  ~ In "010"%char (list_ascii_of_string l) /\ ~ In "013"%char (list_ascii_of_string l).
Proof.
  induction n as [|n IH]; intros s cur l Hl Hn H10 H13.
  - destruct s; simpl in Hn; [|lia]. simpl in Hl. destruct Hl as [<-|[]]. auto.
  - destruct s as [|c rest]; simpl in Hl.
    + destruct Hl as [<-|[]]. auto.
    + simpl in Hn.
      destruct (Ascii.eqb c "013"%char) eqn:Hc13.
      * destruct rest as [|c2 rest2].
        -- destruct Hl as [<-|Hl]; [auto|]. eapply IH; [exact Hl | | simpl; tauto | simpl; tauto].
           simpl. lia.
        -- destruct (Ascii.eqb c2 "010"%char); (destruct Hl as [<-|Hl]; [auto|]);
             (eapply IH; [exact Hl | | simpl; tauto | simpl; tauto]); simpl in *; lia.
      * destruct (Ascii.eqb c "010"%char) eqn:Hc10.
        -- destruct Hl as [<-|Hl]; [auto|]. eapply IH; [exact Hl | | simpl; tauto | simpl; tauto]. lia.
        -- eapply IH; [exact Hl | lia | |]; rewrite list_ascii_of_string_append; simpl;
             rewrite in_app_iff; simpl; intros [H|[H|[]]]; try contradiction.
           ++ subst. rewrite Ascii.eqb_refl in Hc10. discriminate.
           ++ subst. rewrite Ascii.eqb_refl in Hc13. discriminate.
Qed.

Lemma split_lines_no_terminator (v l : string) :
  In l (split_lines v) ->
  ~ In "010"%char (list_ascii_of_string l) /\ ~ In "013"%char (list_ascii_of_string l).
Proof.
  intros H. eapply (split_aux_no_terminator (String.length v) v EmptyString); [exact H | | |]; simpl; auto.
Qed.

Lemma search_origin {E : RegExpEngine} (fuel : nat) (S : Searcherer E) (v : string)
    (opts : SearchOptions E) (rs : list Result) (S' : Searcherer E) :
  engine_bounded E -> Forall wf_dict (s_dictionaries S) ->
  search fuel S (Some v) opts = Some (Ok rs, S') ->
  Forall (fun r =>
    nth_error (split_lines v) (r_lineNumber r) = Some (r_line r) /\
    ~ In "010"%char (list_ascii_of_string (r_line r)) /\
    ~ In "013"%char (list_ascii_of_string (r_line r)) /\
    exists d, In d (s_dictionaries S) /\ r_dictionary r = d_id d /\ In (r_pattern r) (d_patterns d)) rs.
Proof.
  intros hb Hw H. unfold search in H. destruct v as [|c v].
  - inversion H; subst. constructor.
  - destruct (search_lines fuel _ opts 0 (split_lines (String c v)) []) as [[[S2 acc] [e|]]|] eqn:Hs;
      inversion H; subst; clear H.
    destruct (search_lines_blocks hb fuel opts _ (emit S (EvSearch (String c v))) _ _ _ _ Hw Hs)
      as [_ [_ [_ [B [Hrs Hblk]]]]].
    simpl in Hrs, Hblk. rewrite Hrs. apply Forall_forall. intros r Hr.
    destruct (in_nested_blocks _ _ _ _ Hr) as [i [j [k [Hi [Hj [Hk Hin]]]]]].
    destruct (nth_error (split_lines (String c v)) i) as [line|] eqn:Hline;
      [|apply nth_error_None in Hline; lia].
    destruct (nth_error (s_dictionaries S) j) as [d|] eqn:Hd;
      [|apply nth_error_None in Hd; lia].
    unfold npatterns in Hk. rewrite Hd in Hk.
    destruct (Hblk i line j d k Hline Hd Hk) as [Hf _].
    rewrite Forall_forall in Hf. destruct (Hf r Hin) as [Hln [Hl [Hdi Hp]]].
    simpl in Hln. rewrite Hln, Hl.
    destruct (split_lines_no_terminator _ _ (nth_error_In _ _ Hline)) as [H10 H13].
    repeat split; auto.
    exists d. split; [eapply nth_error_In; exact Hd|]. split; [exact Hdi|].
    eapply nth_error_In. exact Hp.
Qed.

(** Every result of a complete search names a line of the text split at
    line terminators (its [lineNumber]-th line, which holds neither [\n] nor
    [\r]), a registered dictionary by identity, and one of that dictionary's
    patterns. *)
Theorem search_results_origin {E : RegExpEngine} (fuel : nat) (S : Searcherer E) (v : string)
    (opts : SearchOptions E) (rs : list Result) (S' : Searcherer E) :
  engine_bounded E -> Forall wf_dict (s_dictionaries S) ->
  search fuel S (Some v) opts = Some (Ok rs, S') ->
  Forall (fun r =>
    nth_error (split_lines v) (r_lineNumber r) = Some (r_line r) /\
    ~ In "010"%char (list_ascii_of_string (r_line r)) /\
    ~ In "013"%char (list_ascii_of_string (r_line r)) /\
    exists d, In d (s_dictionaries S) /\ r_dictionary r = d_id d /\ In (r_pattern r) (d_patterns d)) rs.
Proof.
  intros hb Hw H. exact (search_origin fuel S v opts rs S' hb Hw H).
Qed.

(** *** The highlighted line of the output *)

Lemma substring_whole (s : string) : substring 0 (String.length s) s = s.
Proof. induction s as [|a s IH]; simpl; congruence. Qed.

Lemma substring_prefix_suffix (s : string) (L : nat) :
  (substring 0 L s ++ substring L (String.length s - L) s)%string = s.
Proof.
  revert L; induction s as [|a s IH]; intros L; simpl.
  - destruct L; reflexivity.
  - destruct L as [|L]; simpl.
    + f_equal. apply substring_whole.
    + f_equal. apply IH.
Qed.

Lemma substring_three (s : string) (c L : nat) :
  (substring 0 c s ++ substring c L s ++ substring (c + L) (String.length s - (c + L)) s)%string = s.
Proof.
  revert c; induction s as [|a s IH]; intros c.
  - destruct c, L; reflexivity.
  - destruct c as [|c].
    + rewrite Nat.add_0_l. exact (substring_prefix_suffix (String a s) L).
    + simpl. f_equal. apply IH.
Qed.

(** The line cell [DefaultStyle] and [SimpleStyle] render for a result of a
    complete search is the text before the match, dimmed, then the match
    highlighted, then the text after it, dimmed; the three parts put back
    together are the result's line. *)
Theorem highlighted_line_of_result (dim bgYellow black : string -> string) {E : RegExpEngine}
    (fuel : nat) (S : Searcherer E) (value : option string) (opts : SearchOptions E)
    (rs : list Result) (S' : Searcherer E) :
  engine_bounded E -> search fuel S value opts = Some (Ok rs, S') ->
  Forall (fun r => exists pre post,
    highlighted_line dim bgYellow black r = (dim pre ++ bgYellow (black (r_match r)) ++ dim post)%string /\
    (pre ++ r_match r ++ post)%string = r_line r) rs.
Proof.
  intros hb H.
  assert (Hin : Forall result_in_line rs).
  { unfold search in H. destruct value as [[|a v']|]; try (inversion H; subst; constructor).
    destruct (search_lines fuel _ opts 0 _ []) as [[[S2 acc] [e|]]|] eqn:Hs; inversion H; subst.
    eapply search_lines_in_line; [exact hb | constructor | exact Hs]. }
  eapply Forall_impl; [|exact Hin]. intros r Hr. unfold result_in_line in Hr.
  exists (substring 0 (r_columnNumber r) (r_line r)),
         (js_substring_from (r_line r) (r_columnNumber r + String.length (r_match r))).
  split; [reflexivity|].
  unfold js_substring_from. rewrite <- Hr at 1. apply substring_three.
Qed.

(** *** Dictionary files *)

Lemma new_Dictionary_ok_fields {E : RegExpEngine} id opts (d : Dictionary E) :
  new_Dictionary id opts = Ok d ->
  d_id d = id /\
  d_name d = match js_or (opt_name opts) (Some (JStr "<unknown>")) with
             | Some v => v
             | None => JStr "<unknown>"
             end.
Proof. unfold new_Dictionary. destruct (new_Set _); simpl; intros H; inversion H; auto. Qed.





(** *** The static [Searcherer.search] *)

Lemma search_lines_no_dicts {E : RegExpEngine} fuel (opts : SearchOptions E) :
  opt_filter opts = None ->
  forall lines (S : Searcherer E) ln acc, s_dictionaries S = [] ->
  exists S', search_lines fuel S opts ln lines acc = Some (S', acc, None) /\ s_dictionaries S' = [].
Proof.
  intros Hf. induction lines as [|line lines IH]; intros S ln acc HS; simpl.
  - eauto.
  - unfold searchLine. rewrite Hf, HS. simpl. apply IH. reflexivity.
Qed.

Lemma search_no_dicts {E : RegExpEngine} fuel (S : Searcherer E) value opts :
  opt_filter opts = None -> s_dictionaries S = [] ->
  option_map fst (search fuel S value opts) = Some (Ok []).
Proof.
  intros Hf HS. unfold search. destruct value as [[|c v]|]; try reflexivity.
  destruct (search_lines_no_dicts fuel opts Hf (split_lines (String c v)) (emit S (EvSearch (String c v)))
              0 [] HS) as [S' [-> _]].
  reflexivity.
Qed.

(** [Searcherer.search(value, dictionary, options)] with a string as the
    dictionary: an empty string, like an absent dictionary, registers no
    dictionary, so nothing is found (when no [filter] is given); a non-empty
    string is a dictionary whose patterns are its characters, so every
    result is for that dictionary and one character of the string. *)
Theorem Searcherer_search_string_dictionary {E : RegExpEngine} (fuel id : nat)
    (value : option string) (str : string) (opts : SearchOptions E) :
  (opt_filter opts = None -> Searcherer_search fuel id value None opts = Some (Ok [])) /\
  (str = EmptyString -> opt_filter opts = None ->
     Searcherer_search fuel id value (Some (DArgString str)) opts = Some (Ok [])) /\
  (engine_bounded E -> forall rs,
     Searcherer_search fuel id value (Some (DArgString str)) opts = Some (Ok rs) ->
     Forall (fun r => r_dictionary r = id /\
               exists c, r_pattern r = JStr (String c EmptyString) /\ In c (list_ascii_of_string str)) rs).
Proof.
  split; [|split].
  - intros Hf. unfold Searcherer_search, new_Searcherer. apply search_no_dicts; auto.
  - intros -> Hf. unfold Searcherer_search, new_Searcherer. simpl. apply search_no_dicts; auto.
  - intros hb rs. unfold Searcherer_search, new_Searcherer.
    destruct (DictionaryArg_truthy (DArgString str)) eqn:Ht.
    2:{ destruct (search fuel _ value opts) as [[r S']|] eqn:Hs; simpl; intros H; inversion H; subst.
        destruct value as [v|]; [|inversion Hs; constructor].
        eapply Forall_impl; [|exact (search_origin fuel {| s_dictionaries := []; s_events := [] |} v opts rs S' hb (Forall_nil _) Hs)].
        intros r [_ [_ [_ [d' [[] _]]]]]. }
    unfold addDictionary.
    destruct (new_Dictionary id {| opt_name := None; opt_patterns := Some (JStr str) |})
      as [d|e] eqn:Hn; cbn [res_bind]; [|discriminate].
    unfold add_dictionary_to_set. cbn [s_dictionaries existsb fst].
    destruct (search fuel _ value opts) as [[r S']|] eqn:Hs; simpl; intros H; inversion H; subst.
    destruct value as [v|]; [|inversion Hs; constructor].
    eapply Forall_impl; [|exact (search_origin fuel {| s_dictionaries := [] ++ [d]; s_events := [] |} v opts rs S' hb
                                   (Forall_cons _ (new_Dictionary_wf _ _ _ Hn) (Forall_nil _)) Hs)].
    intros r [_ [_ [_ [d' [Hd' [Hid Hp]]]]]]. simpl in Hd'. destruct Hd' as [<-|[]].
    destruct (new_Dictionary_ok_fields _ _ _ Hn) as [Hid' _].
    split; [congruence|].
    unfold new_Dictionary, js_or in Hn. cbn [opt_name opt_patterns] in Hn.
    cbn [DictionaryArg_truthy] in Ht. cbn [truthy] in Hn. rewrite Ht in Hn. simpl in Hn.
    injection Hn as <-. simpl in Hp. apply in_set_of_list_inv, chars_of_spec in Hp. exact Hp.
Qed.

(** *** Complete searches reset the cached [RegExp] objects *)

Lemma set_entry_beyond {E : RegExpEngine} k (x : RegExp E) m :
  length m <= k -> set_entry k x m = m.
Proof.
  revert k; induction m as [|[p r] m IH]; intros [|k] H; simpl in *; try reflexivity; [lia|].
  rewrite IH by lia. reflexivity.
Qed.

Lemma set_entry_twice {E : RegExpEngine} k (a b : RegExp E) m :
  set_entry k a (set_entry k b m) = set_entry k a m.
Proof.
  revert k; induction m as [|[p r] m IH]; intros [|k]; simpl; try reflexivity.
  rewrite IH. reflexivity.
Qed.

Lemma set_entry_same {E : RegExpEngine} k p (r0 : RegExp E) m :
  nth_error m k = Some (p, r0) -> set_entry k r0 m = m.
Proof.
  revert k; induction m as [|[q r] m IH]; intros [|k] H; simpl in *; try discriminate.
  - inversion H; subst. reflexivity.
  - rewrite (IH k H). reflexivity.
Qed.

Lemma skipn_set_entry_at {E : RegExpEngine} k (x : RegExp E) m p r0 rest :
  skipn k m = (p, r0) :: rest -> skipn k (set_entry k x m) = (p, x) :: rest.
Proof.
  revert m; induction k as [|k IH]; intros [|[q r] m] H; simpl in *; try discriminate.
  - inversion H; subst. reflexivity.
  - apply IH. exact H.
Qed.

Lemma skipn_nil_length {A} k (m : list A) : skipn k m = [] -> length m <= k.
Proof. intros H. assert (H1 := length_skipn k m). rewrite H in H1. simpl in H1. lia. Qed.

Lemma update_bool_twice {A} (cs : bool) (f g : A -> A) l :
  update_bool cs f (update_bool cs g l) = update_bool cs (fun x => f (g x)) l.
Proof.
  induction l as [|[k a] l IH]; simpl; [reflexivity|].
  destruct (Bool.eqb cs k) eqn:He; simpl; rewrite He; [reflexivity|]. rewrite IH. reflexivity.
Qed.

Lemma update_bool_same {A} (cs : bool) (m : A) l :
  assoc_bool cs l = Some m -> update_bool cs (fun _ => m) l = l.
Proof.
  induction l as [|[k a] l IH]; simpl; [discriminate|].
  destruct (Bool.eqb cs k); intros H.
  - inversion H; subst. reflexivity.
  - rewrite (IH H). reflexivity.
Qed.

Lemma with_regExpMaps_self {E : RegExpEngine} (d : Dictionary E) : with_regExpMaps d (d_regExpMaps d) = d.
Proof. destruct d; reflexivity. Qed.

Lemma regexp_fresh_eta {E : RegExpEngine} (r : RegExp E) : lastIndex r = 0 -> mkRegExp (re_prog r) 0 = r.
Proof. destruct r; simpl; intros ->; reflexivity. Qed.

Lemma compile_all_fresh {E : RegExpEngine} fi ps (m : list (json * RegExp E)) :
  compile_all fi ps = Ok m -> fresh_map m.
Proof.
  revert m; induction ps as [|p ps IH]; simpl; intros m H.
  - inversion H; constructor.
  - destruct (re_compile E (js_to_string p) fi); [|discriminate].
    destruct (compile_all fi ps) as [m'|] eqn:Hc; simpl in H; [|discriminate].
    inversion H; subst. constructor; [reflexivity | apply IH; reflexivity].
Qed.

Lemma createRegExpMap_cached {E : RegExpEngine} (d d1 : Dictionary E) cs m :
  clean_dict d -> createRegExpMap d cs = Ok (m, d1) ->
  assoc_bool cs (d_regExpMaps d1) = Some m /\ fresh_map m /\ clean_dict d1.
Proof.
  intros Hc. unfold createRegExpMap. destruct (assoc_bool cs (d_regExpMaps d)) as [m0|] eqn:H0.
  - intros H; inversion H; subst. split; [exact H0|]. split; [exact (Hc cs m H0) | exact Hc].
  - destruct (compile_all (negb cs) (d_patterns d)) as [m1|] eqn:Hm; simpl; [|discriminate].
    intros H; inversion H; subst. simpl. apply compile_all_fresh in Hm.
    split; [rewrite assoc_snoc, H0, Bool.eqb_reflx; reflexivity|]. split; [exact Hm|].
    intros c m2 H2. simpl in H2. rewrite assoc_snoc in H2.
    destruct (assoc_bool c (d_regExpMaps d)) as [m3|] eqn:H3.
    + inversion H2; subst. exact (Hc c m2 H3).
    + destruct (Bool.eqb c cs); inversion H2; subst. exact Hm.
Qed.

Lemma createRegExpMap_again {E : RegExpEngine} (d d1 : Dictionary E) cs m :
  createRegExpMap d cs = Ok (m, d1) -> createRegExpMap d1 cs = Ok (m, d1).
Proof.
  unfold createRegExpMap. destruct (assoc_bool cs (d_regExpMaps d)) as [m0|] eqn:H0.
  - intros H; inversion H; subst. rewrite H0. reflexivity.
  - destruct (compile_all (negb cs) (d_patterns d)) as [m1|] eqn:Hm; simpl; [|discriminate].
    intros H; inversion H; subst. simpl. rewrite assoc_snoc, H0, Bool.eqb_reflx. reflexivity.
Qed.

Lemma consume_start_cached {E : RegExpEngine} (d d1 : Dictionary E) cs m ctx fuel :
  createRegExpMap d cs = Ok (m, d1) -> c_caseSensitive ctx = cs ->
  consume fuel (GStart ctx) d1 = consume fuel (GStart ctx) d.
Proof.
  intros H Hc. destruct fuel as [|f]; [reflexivity|]. rewrite !consume_S. simpl.
  rewrite Hc, H, (createRegExpMap_again _ _ _ _ H). reflexivity.
Qed.

Section Reset.
Context {E : RegExpEngine}.
Variable d1 : Dictionary E.
Variable cs : bool.
Variable m : list (json * RegExp E).
Hypothesis Hm : assoc_bool cs (d_regExpMaps d1) = Some m.
Hypothesis Hfresh : fresh_map m.

Lemma reset_state_step (mk : list (json * RegExp E)) f :
  with_regExpMaps (with_regExpMaps d1 (update_bool cs (fun _ => mk) (d_regExpMaps d1)))
    (update_bool cs f (d_regExpMaps (with_regExpMaps d1 (update_bool cs (fun _ => mk) (d_regExpMaps d1)))))
  = with_regExpMaps d1 (update_bool cs (fun _ => f mk) (d_regExpMaps d1)).
Proof. cbn [d_regExpMaps with_regExpMaps]. rewrite update_bool_twice. reflexivity. Qed.

Lemma reset_state_m : with_regExpMaps d1 (update_bool cs (fun _ => m) (d_regExpMaps d1)) = d1.
Proof. rewrite (update_bool_same _ _ _ Hm). apply with_regExpMaps_self. Qed.

Lemma reset_state_map (mk : list (json * RegExp E)) :
  assoc_bool cs (d_regExpMaps (with_regExpMaps d1 (update_bool cs (fun _ => mk) (d_regExpMaps d1))))
  = Some mk.
Proof. cbn [d_regExpMaps with_regExpMaps]. rewrite assoc_update, Bool.eqb_reflx, Hm. reflexivity. Qed.

(** The entry [k] of the cached map may have moved on; the others are as
    the map was built. *)
Lemma loop_from_reset (ctx : SearchContext) :
  c_caseSensitive ctx = cs ->
  forall rest k x, skipn k m = rest ->
  (forall p r0, nth_error m k = Some (p, r0) -> re_prog x = re_prog r0) ->
  forall out g D,
  loop_from (with_regExpMaps d1 (update_bool cs (fun _ => set_entry k x m) (d_regExpMaps d1)))
    ctx k (skipn k (set_entry k x m)) = (out, g, D) ->
  (out = Finished /\ D = d1) \/
  (exists r k' x', out = Yield r /\ g = GLoop ctx k' /\
     D = with_regExpMaps d1 (update_bool cs (fun _ => set_entry k' x' m) (d_regExpMaps d1)) /\
     (forall p r0, nth_error m k' = Some (p, r0) -> re_prog x' = re_prog r0)).
Proof.
  intros Hc rest. induction rest as [|[p r0] rest IH]; intros k x Hk Hx out g D H.
  - pose proof (skipn_nil_length _ _ Hk) as Hl.
    rewrite (set_entry_beyond _ _ _ Hl), Hk in H. simpl in H. injection H as <- <- <-.
    left. split; [reflexivity | apply reset_state_m].
  - destruct (skipn_cons_nth _ _ _ _ Hk) as [Hn Hrest].
    rewrite (skipn_set_entry_at _ x _ _ _ _ Hk) in H. cbn [loop_from] in H.
    destruct (exec x (c_line ctx)) as [mm re'] eqn:Hx'. rewrite Hc, reset_state_step, set_entry_twice in H.
    destruct mm as [[i e]|].
    + injection H as <- <- <-. right. eexists. exists k, re'.
      split; [reflexivity|]. split; [reflexivity|]. split; [reflexivity|].
      intros p1 r1 Hn1. apply exec_some in Hx'. destruct Hx' as [_ [_ ->]]. simpl.
      apply Hx with p1. exact Hn1.
    + apply exec_none in Hx'. subst re'.
      assert (Hr0 : mkRegExp (re_prog x) 0 = r0).
      { rewrite (Hx p r0 Hn). apply regexp_fresh_eta.
        unfold fresh_map in Hfresh. rewrite Forall_forall in Hfresh.
        apply (Hfresh (p, r0)). eapply nth_error_In. exact Hn. }
      rewrite Hr0, (set_entry_same _ _ _ _ Hn) in H.
      destruct (nth_error m (Datatypes.S k)) as [[p1 r1]|] eqn:Hn1.
      * apply (IH (Datatypes.S k) r1 Hrest).
        -- intros p2 r2 Hn2. rewrite Hn1 in Hn2. inversion Hn2; reflexivity.
        -- rewrite (set_entry_same _ _ _ _ Hn1), Hrest. exact H.
      * apply nth_error_None in Hn1.
        apply (IH (Datatypes.S k) r0 Hrest).
        -- intros p2 r2 Hn2. exfalso.
           assert (Hs : nth_error m (Datatypes.S k) <> None) by congruence.
           apply nth_error_Some in Hs. lia.
        -- rewrite (set_entry_beyond _ _ _ Hn1), Hrest. exact H.
Qed.

Lemma consume_reset (ctx : SearchContext) :
  c_caseSensitive ctx = cs ->
  forall fuel k x rs D err,
  (forall p r0, nth_error m k = Some (p, r0) -> re_prog x = re_prog r0) ->
  consume fuel (GLoop ctx k)
    (with_regExpMaps d1 (update_bool cs (fun _ => set_entry k x m) (d_regExpMaps d1)))
  = Some (rs, D, err) ->
  err = None /\ D = d1.
Proof.
  intros Hc fuel. induction fuel as [|f IH]; intros k x rs D err Hx H; [discriminate|].
  rewrite consume_S in H. cbn [gen_next] in H. rewrite Hc, reset_state_map in H.
  destruct (loop_from _ ctx k (skipn k (set_entry k x m))) as [[out g] D1] eqn:Hl.
  destruct (loop_from_reset ctx Hc _ k x eq_refl Hx _ _ _ Hl)
    as [[-> ->]|[r [k' [x' [-> [-> [-> Hx']]]]]]].
  - injection H as _ <- <-. auto.
  - destruct (consume f (GLoop ctx k') _) as [[[rs' D2] err']|] eqn:Hc'; [|discriminate].
    injection H as _ <- <-. exact (IH k' x' rs' D2 err' Hx' Hc').
Qed.

End Reset.

(** A complete consumption from a clean state ends in the state
    [_createRegExpMap] left. *)
Lemma consume_complete_cached {E : RegExpEngine} fuel ctx (d d' : Dictionary E) rs :
  clean_dict d -> consume fuel (GStart ctx) d = Some (rs, d', None) ->
  cached_state (c_caseSensitive ctx) d d'.
Proof.
  intros Hclean H. destruct fuel as [|f]; [discriminate|].
  destruct (createRegExpMap d (c_caseSensitive ctx)) as [[m d1]|e] eqn:Hc.
  2:{ rewrite consume_S in H. simpl in H. rewrite Hc in H. discriminate. }
  destruct (createRegExpMap_cached _ _ _ _ Hclean Hc) as [Hm1 [Hf _]].
  exists m. split; [|exact Hf].
  assert (Heq : consume (S f) (GStart ctx) d = consume (S f) (GLoop ctx 0) d1).
  { rewrite !consume_S. simpl. rewrite Hc, Hm1. reflexivity. }
  rewrite Heq in H. rewrite Hc. f_equal. f_equal.
  destruct m as [|[p0 r0] m'].
  - rewrite consume_S in H. simpl in H. rewrite Hm1 in H. simpl in H. inversion H; reflexivity.
  - rewrite <- (reset_state_m d1 _ _ Hm1), <- (set_entry_same 0 p0 r0 ((p0, r0) :: m') eq_refl) in H.
    symmetry. apply (consume_reset d1 _ _ Hm1 Hf ctx eq_refl (S f) 0 r0 rs d' None).
    + intros p r Hn. simpl in Hn. inversion Hn; reflexivity.
    + exact H.
Qed.

Lemma cached_state_fun {E : RegExpEngine} cs (d a b : Dictionary E) :
  cached_state cs d a -> cached_state cs d b -> a = b.
Proof. intros [m1 [H1 _]] [m2 [H2 _]]. rewrite H1 in H2. congruence. Qed.

Lemma cached_state_fixed {E : RegExpEngine} cs (d d1 : Dictionary E) :
  cached_state cs d d1 -> cached_state cs d1 d1.
Proof. intros [m [H Hf]]. exists m. split; [apply (createRegExpMap_again _ _ _ _ H) | exact Hf]. Qed.

Lemma cached_state_clean {E : RegExpEngine} cs (d d1 : Dictionary E) :
  clean_dict d -> cached_state cs d d1 -> clean_dict d1.
Proof. intros Hc [m [H _]]. exact (proj2 (proj2 (createRegExpMap_cached _ _ _ _ Hc H))). Qed.

(** When every cached [RegExp] of a dictionary is at [lastIndex] 0, a
    search whose sequence is consumed to its end leaves the dictionary in
    that state again (its pattern map for the search's case flag now
    built), and any later search with the same case flag, of any line,
    behaves exactly as it would have without the earlier one. *)
Theorem complete_consumption_leaves_no_trace {E : RegExpEngine} (fuel : nat) (ctx : SearchContext)
    (d d' : Dictionary E) (rs : list Result) :
  clean_dict d -> consume fuel (Dictionary_search ctx) d = Some (rs, d', None) ->
  clean_dict d' /\
  forall fuel' ctx', c_caseSensitive ctx' = c_caseSensitive ctx ->
    consume fuel' (Dictionary_search ctx') d' = consume fuel' (Dictionary_search ctx') d.
Proof.
  intros Hc H. unfold Dictionary_search in *.
  pose proof (consume_complete_cached _ _ _ _ _ Hc H) as Hcs.
  split; [exact (cached_state_clean _ _ _ Hc Hcs)|].
  intros fuel' ctx' Hctx. destruct Hcs as [m [Hm _]].
  exact (consume_start_cached _ _ _ _ ctx' fuel' Hm Hctx).
Qed.

(** *** Searching again with a [Searcherer] *)

Lemma search_dicts_shift {E : RegExpEngine} fuel ctx (ds : list (Dictionary E)) :
  forall evs acc,
  search_dicts fuel ctx ds evs acc =
  match search_dicts fuel ctx ds [] acc with
  | Some (ds', evs', acc', err) => Some (ds', (evs ++ evs')%list, acc', err)
  | None => None
  end.
Proof.
  induction ds as [|d ds IH]; intros evs acc; simpl.
  - rewrite app_nil_r. reflexivity.
  - destruct (consume fuel (Dictionary_search ctx) d) as [[[rs d1] [e|]]|]; try reflexivity.
    rewrite (IH (evs ++ map EvResult rs)%list), (IH ([] ++ map EvResult rs)%list).
    destruct (search_dicts fuel ctx ds [] (acc ++ rs)%list) as [[[[ds2 evs2] acc2] err2]|];
      [|reflexivity].
    simpl. rewrite app_assoc. reflexivity.
Qed.

Lemma search_lines_shift {E : RegExpEngine} fuel (opts : SearchOptions E) :
  forall lines (S : Searcherer E) ln acc,
  search_lines fuel S opts ln lines acc =
  match search_lines fuel {| s_dictionaries := s_dictionaries S; s_events := [] |} opts ln lines acc with
  | Some (S', acc', err) =>
      Some ({| s_dictionaries := s_dictionaries S'; s_events := (s_events S ++ s_events S')%list |},
            acc', err)
  | None => None
  end.
Proof.
  induction lines as [|line lines IH]; intros S ln acc; simpl.
  - rewrite app_nil_r. destruct S; reflexivity.
  - unfold searchLine. cbn [s_dictionaries s_events]. destruct (opt_filter opts).
    + rewrite app_nil_r. destruct S; reflexivity.
    + rewrite (search_dicts_shift _ _ _ (s_events S)).
      destruct (search_dicts fuel _ (s_dictionaries S) [] acc) as [[[[ds1 e1] acc1] [e|]]|];
        try reflexivity.
      rewrite (IH {| s_dictionaries := ds1; s_events := (s_events S ++ e1)%list |}),
              (IH {| s_dictionaries := ds1; s_events := ([] ++ e1)%list |}).
      cbn [s_dictionaries s_events].
      destruct (search_lines fuel {| s_dictionaries := ds1; s_events := [] |} opts _ lines acc1)
        as [[[S2 acc2] err2]|]; [|reflexivity].
      simpl. rewrite app_assoc. reflexivity.
Qed.

Lemma search_dicts_cached {E : RegExpEngine} fuel ctx (ds : list (Dictionary E)) :
  forall evs acc ds' evs' acc',
  Forall clean_dict ds -> search_dicts fuel ctx ds evs acc = Some (ds', evs', acc', None) ->
  Forall2 (cached_state (c_caseSensitive ctx)) ds ds'.
Proof.
  induction ds as [|d ds IH]; intros evs acc ds' evs' acc' Hc H; simpl in H.
  - inversion H; constructor.
  - inversion Hc as [|? ? Hd Hds]; subst.
    unfold Dictionary_search in H.
    destruct (consume fuel (GStart ctx) d) as [[[rs d1] [e|]]|] eqn:Hcon; [discriminate| |discriminate].
    destruct (search_dicts fuel ctx ds _ _) as [[[[ds2 evs2] acc2] err2]|] eqn:Hs; [|discriminate].
    inversion H; subst. constructor.
    + exact (consume_complete_cached _ _ _ _ _ Hd Hcon).
    + exact (IH _ _ _ _ _ Hds Hs).
Qed.

Lemma search_dicts_from_cached {E : RegExpEngine} fuel ctx (ds ds1 : list (Dictionary E)) :
  Forall2 (cached_state (c_caseSensitive ctx)) ds ds1 ->
  forall evs acc ds' evs' acc',
  search_dicts fuel ctx ds evs acc = Some (ds', evs', acc', None) ->
  search_dicts fuel ctx ds1 evs acc = Some (ds', evs', acc', None).
Proof.
  induction 1 as [|d d1 ds ds1 [m [Hm _]] _ IH]; intros evs acc ds' evs' acc' H; [exact H|].
  simpl in *. unfold Dictionary_search in *.
  rewrite (consume_start_cached _ _ _ _ ctx fuel Hm eq_refl).
  destruct (consume fuel (GStart ctx) d) as [[[rs d2] [e|]]|]; [discriminate| |discriminate].
  destruct (search_dicts fuel ctx ds _ _) as [[[[ds2 evs2] acc2] err2]|] eqn:Hs; [|discriminate].
  injection H as <- <- <- ->. rewrite (IH _ _ _ _ _ Hs). reflexivity.
Qed.

Lemma Forall2_cached_fun {E : RegExpEngine} cs (ds a b : list (Dictionary E)) :
  Forall2 (cached_state cs) ds a -> Forall2 (cached_state cs) ds b -> a = b.
Proof.
  intros Ha. revert b. induction Ha as [|d x ds xs Hx _ IH]; intros b Hb; inversion Hb; subst.
  - reflexivity.
  - f_equal; [exact (cached_state_fun _ _ _ _ Hx H1) | exact (IH _ H3)].
Qed.

Lemma Forall2_cached_fixed {E : RegExpEngine} cs (ds ds1 : list (Dictionary E)) :
  Forall2 (cached_state cs) ds ds1 -> Forall2 (cached_state cs) ds1 ds1.
Proof. induction 1; constructor; eauto using cached_state_fixed. Qed.

Lemma Forall2_cached_clean {E : RegExpEngine} cs (ds ds1 : list (Dictionary E)) :
  Forall clean_dict ds -> Forall2 (cached_state cs) ds ds1 -> Forall clean_dict ds1.
Proof.
  intros Hc H. induction H as [|d d1 ds ds1 Hd _ IH]; constructor; inversion Hc; subst.
  - exact (cached_state_clean _ _ _ H1 Hd).
  - exact (IH H2).
Qed.

(** Lines searched from dictionaries already in their cached state leave
    them as they are. *)
Lemma search_lines_fixed {E : RegExpEngine} fuel (opts : SearchOptions E) (ds0 : list (Dictionary E)) :
  forall lines (S : Searcherer E) ln acc S' acc',
  Forall clean_dict ds0 ->
  Forall2 (cached_state (opt_caseSensitive opts)) ds0 (s_dictionaries S) ->
  search_lines fuel S opts ln lines acc = Some (S', acc', None) ->
  s_dictionaries S' = s_dictionaries S.
Proof.
  induction lines as [|line lines IH]; intros S ln acc S' acc' Hc0 Hcs H; simpl in H.
  - inversion H; reflexivity.
  - unfold searchLine in H. destruct (opt_filter opts); [discriminate|].
    destruct (search_dicts fuel _ (s_dictionaries S) (s_events S) acc)
      as [[[[ds evs] acc1] [e|]]|] eqn:Hs; [discriminate| |discriminate].
    pose proof (search_dicts_cached _ _ _ _ _ _ _ _ (Forall2_cached_clean _ _ _ Hc0 Hcs) Hs) as H1.
    simpl in H1. rewrite (Forall2_cached_fun _ _ _ _ H1 (Forall2_cached_fixed _ _ _ Hcs)) in H.
    exact (IH {| s_dictionaries := s_dictionaries S; s_events := evs |} _ _ _ _ Hc0 Hcs H).
Qed.

Lemma search_lines_cached {E : RegExpEngine} fuel (opts : SearchOptions E) :
  forall line lines (S : Searcherer E) ln acc S' acc',
  Forall clean_dict (s_dictionaries S) ->
  search_lines fuel S opts ln (line :: lines) acc = Some (S', acc', None) ->
  Forall2 (cached_state (opt_caseSensitive opts)) (s_dictionaries S) (s_dictionaries S') /\
  forall T : Searcherer E,
    Forall2 (cached_state (opt_caseSensitive opts)) (s_dictionaries S) (s_dictionaries T) ->
    exists T', search_lines fuel T opts ln (line :: lines) acc = Some (T', acc', None) /\
               s_dictionaries T' = s_dictionaries S'.
Proof.
  intros line lines S ln acc S' acc' Hc H. simpl in H. unfold searchLine in H.
  destruct (opt_filter opts) eqn:Hf; [discriminate|].
  destruct (search_dicts fuel _ (s_dictionaries S) (s_events S) acc)
    as [[[[ds evs] acc1] [e|]]|] eqn:Hs; [discriminate| |discriminate].
  pose proof (search_dicts_cached _ _ _ _ _ _ _ _ Hc Hs) as H1. simpl in H1.
  assert (Hfix := search_lines_fixed fuel opts (s_dictionaries S) lines
                    {| s_dictionaries := ds; s_events := evs |} _ _ _ _ Hc H1 H). simpl in Hfix.
  split; [rewrite Hfix; exact H1|].
  intros T HT.
  rewrite (Forall2_cached_fun _ _ _ _ H1 HT) in Hs, H, Hfix.
  rewrite search_dicts_shift in Hs.
  destruct (search_dicts fuel _ (s_dictionaries S) [] acc) as [[[[ds0 e0] a0] err0]|] eqn:Hs0;
    [|discriminate].
  injection Hs as Eds Eevs Eacc Eerr. subst ds0 evs a0 err0.
  pose proof (search_dicts_from_cached fuel {| c_line := line; c_lineNumber := ln;
                                               c_caseSensitive := opt_caseSensitive opts |}
                _ _ HT _ _ _ _ _ Hs0) as HsT.
  rewrite search_lines_shift in H. cbn [s_dictionaries s_events] in H.
  exists {| s_dictionaries := s_dictionaries S'; s_events := (s_events T ++ (e0 ++
            match search_lines fuel {| s_dictionaries := s_dictionaries T; s_events := [] |} opts
                    (Datatypes.S ln) lines acc1 with
            | Some (S2, _, _) => s_events S2
            | None => []
            end))%list |}.
  split; [|reflexivity].
  simpl. unfold searchLine. rewrite Hf, search_dicts_shift, HsT.
  rewrite search_lines_shift. cbn [s_dictionaries s_events].
  destruct (search_lines fuel {| s_dictionaries := s_dictionaries T; s_events := [] |} opts
              (Datatypes.S ln) lines acc1) as [[[S2 a2] err2]|]; [|discriminate].
  injection H as HS' <- <-. rewrite <- HS'. simpl. rewrite app_assoc. reflexivity.
Qed.

(** When every cached [RegExp] of a searcherer's dictionaries is at
    [lastIndex] 0, a search of a non-empty value that returns its results
    leaves them so, and afterwards every search with the same options that
    would have returned results still returns the same results, and leaves
    the dictionaries as the first search left them. *)
Theorem search_again_same_results {E : RegExpEngine} (fuel : nat) (S S1 : Searcherer E)
    (v : string) (opts : SearchOptions E) (rs : list Result) :
  Forall clean_dict (s_dictionaries S) -> v <> EmptyString ->
  search fuel S (Some v) opts = Some (Ok rs, S1) ->
  Forall clean_dict (s_dictionaries S1) /\
  forall v' rs' S2, search fuel S v' opts = Some (Ok rs', S2) ->
    exists S3, search fuel S1 v' opts = Some (Ok rs', S3) /\ s_dictionaries S3 = s_dictionaries S1.
Proof.
  intros Hc Hv H. destruct v as [|c w]; [contradiction|]. unfold search in H.
  destruct (split_aux_cons (String c w) EmptyString) as [l0 [ls Hl]].
  unfold split_lines in H. rewrite Hl in H.
  destruct (search_lines fuel _ opts 0 (l0 :: ls) []) as [[[S1' acc] [e|]]|] eqn:Hs;
    [discriminate| |discriminate].
  injection H as <- <-.
  destruct (search_lines_cached fuel opts l0 ls (emit S (EvSearch (String c w))) 0 [] S1' acc Hc Hs) as [H1 _]. simpl in H1.
  split; [exact (Forall2_cached_clean _ _ _ Hc H1)|].
  intros v' rs' S2 H2. unfold search in H2 |- *.
  destruct v' as [[|c' w']|]; try (injection H2 as <- <-; eexists; split; reflexivity).
  destruct (split_aux_cons (String c' w') EmptyString) as [l0' [ls' Hl']].
  unfold split_lines in H2 |- *. rewrite Hl' in H2 |- *.
  destruct (search_lines fuel _ opts 0 (l0' :: ls') []) as [[[S2' acc'] [e|]]|] eqn:Hs2;
    [discriminate| |discriminate].
  injection H2 as <- <-.
  destruct (search_lines_cached fuel opts l0' ls' (emit S (EvSearch (String c' w'))) 0 [] S2' acc' Hc Hs2) as [H3 H4]. simpl in H3.
  destruct (H4 (emit (emit S1' (EvEnd acc)) (EvSearch (String c' w'))) H1) as [T' [HT' HdT']].
  rewrite HT'. eexists. split; [reflexivity|]. simpl.
  rewrite HdT'. exact (Forall2_cached_fun _ _ _ _ H3 H1).
Qed.

(** ** Instances of the further properties on concrete inputs *)

Lemma new_Dictionary_name_witness :
  exists d : Dictionary mini_engine,
    new_Dictionary 0 file_defaults = Ok d /\ Dictionary_toString d = JStr "animals".
Proof.
  destruct (new_Dictionary (E:=mini_engine) 0 file_defaults) as [d|e] eqn:H.
  - exists d. split; [reflexivity|].
    destruct (new_Dictionary_name 0 file_defaults d H) as [_ [Ht [Hn _]]].
    rewrite Ht. specialize (Hn eq_refl). cbn in Hn. injection Hn as ->. reflexivity.
  - refute_with (fun o : res (Dictionary mini_engine) =>
                   match o with Ok _ => true | Throw _ => false end) H.
Defined.

Lemma search_events_witness :
  match search 10 (searcherer_of [dict_of (E:=mini_engine) 0 ["cat"]]) (Some cat_text)
          (plain_options true) with
  | Some (Ok rs, S') => s_events S' = (EvSearch cat_text :: map EvResult rs ++ [EvEnd rs])%list
  | _ => False
  end.
Proof.
  destruct (search 10 (searcherer_of [dict_of (E:=mini_engine) 0 ["cat"]]) (Some cat_text)
              (plain_options true)) as [[[rs|e] S']|] eqn:H.
  - exact (proj1 (proj2 (search_events _ _ _ _ _ _ H) cat_text eq_refl ltac:(discriminate))
                 rs eq_refl).
  - refute_with (fun o : option (res (list Result) * Searcherer mini_engine) =>
                   match o with Some (Ok _, _) => true | _ => false end) H.
  - refute_with (fun o : option (res (list Result) * Searcherer mini_engine) =>
                   match o with Some (Ok _, _) => true | _ => false end) H.
Defined.

Lemma search_keeps_dictionaries_witness :
  match search 10 (searcherer_of [dict_of (E:=mini_engine) 0 ["cat"]; dict_of 1 ["("]])
          (Some "cat") (plain_options false) with
  | Some (Throw _, S') =>
      map dict_shape (s_dictionaries S')
      = map dict_shape [dict_of (E:=mini_engine) 0 ["cat"]; dict_of 1 ["("]]
  | _ => False
  end.
Proof.
  destruct (search 10 (searcherer_of [dict_of (E:=mini_engine) 0 ["cat"]; dict_of 1 ["("]])
              (Some "cat") (plain_options false)) as [[[rs|e] S']|] eqn:H.
  - refute_with (fun o : option (res (list Result) * Searcherer mini_engine) =>
                   match o with Some (Throw _, _) => true | _ => false end) H.
  - exact (search_keeps_dictionaries _ _ _ _ _ _ H).
  - refute_with (fun o : option (res (list Result) * Searcherer mini_engine) =>
                   match o with Some (Throw _, _) => true | _ => false end) H.
Defined.

Lemma search_error_cause_witness :
  match search 10 (searcherer_of [dict_of (E:=mini_engine) 0 ["cat"]; dict_of 1 ["("]])
          (Some "cat") (plain_options false) with
  | Some (Throw e, _) =>
      e = SyntaxError /\
      exists d p, In d [dict_of (E:=mini_engine) 0 ["cat"]; dict_of 1 ["("]] /\
        In p (d_patterns d) /\ re_compile mini_engine (js_to_string p) true = None
  | _ => False
  end.
Proof.
  destruct (search 10 (searcherer_of [dict_of (E:=mini_engine) 0 ["cat"]; dict_of 1 ["("]])
              (Some "cat") (plain_options false)) as [[[rs|e] S']|] eqn:H.
  - refute_with (fun o : option (res (list Result) * Searcherer mini_engine) =>
                   match o with Some (Throw _, _) => true | _ => false end) H.
  - destruct (search_error_cause _ _ _ _ _ _ H) as [[Hf _]|[_ He]].
    + exfalso. apply Hf. reflexivity.
    + exact He.
  - refute_with (fun o : option (res (list Result) * Searcherer mini_engine) =>
                   match o with Some (Throw _, _) => true | _ => false end) H.
Defined.

Lemma search_results_origin_witness :
  engine_bounded mini_engine /\ Forall wf_dict [dict_of (E:=mini_engine) 0 ["cat"]] /\
  match search 10 (searcherer_of [dict_of (E:=mini_engine) 0 ["cat"]]) (Some cat_text)
          (plain_options true) with
  | Some (Ok rs, _) =>
      Forall (fun r =>
        nth_error (split_lines cat_text) (r_lineNumber r) = Some (r_line r) /\
        ~ In "010"%char (list_ascii_of_string (r_line r)) /\
        ~ In "013"%char (list_ascii_of_string (r_line r)) /\
        exists d, In d [dict_of (E:=mini_engine) 0 ["cat"]] /\ r_dictionary r = d_id d /\
                  In (r_pattern r) (d_patterns d)) rs
  | _ => False
  end.
Proof.
  assert (Hwf : Forall wf_dict [dict_of (E:=mini_engine) 0 ["cat"]]).
  { constructor; [|constructor].
    apply (new_Dictionary_wf 0
             {| opt_name := None; opt_patterns := Some (JArr (map JStr ["cat"])) |}).
    reflexivity. }
  split; [exact mini_engine_bounded|]. split; [exact Hwf|].
  destruct (search 10 (searcherer_of [dict_of (E:=mini_engine) 0 ["cat"]]) (Some cat_text)
              (plain_options true)) as [[[rs|e] S']|] eqn:H.
  - exact (search_results_origin 10 (searcherer_of [dict_of 0 ["cat"]]) cat_text
             (plain_options true) rs S' mini_engine_bounded Hwf H).
  - refute_with (fun o : option (res (list Result) * Searcherer mini_engine) =>
                   match o with Some (Ok _, _) => true | _ => false end) H.
  - refute_with (fun o : option (res (list Result) * Searcherer mini_engine) =>
                   match o with Some (Ok _, _) => true | _ => false end) H.
Defined.

Lemma highlighted_line_of_result_witness :
  engine_bounded mini_engine /\
  match search 10 (searcherer_of [dict_of (E:=mini_engine) 0 ["o"]]) (Some "dog")
          (plain_options true) with
  | Some (Ok rs, _) =>
      Forall (fun r => exists pre post,
        highlighted_line (fun s => "(" ++ s ++ ")") (fun s => "[" ++ s ++ "]") (fun s => s) r
          = (("(" ++ pre ++ ")") ++ ("[" ++ r_match r ++ "]") ++ ("(" ++ post ++ ")"))%string /\
        (pre ++ r_match r ++ post)%string = r_line r) rs
  | _ => False
  end.
Proof.
  split; [exact mini_engine_bounded|].
  destruct (search 10 (searcherer_of [dict_of (E:=mini_engine) 0 ["o"]]) (Some "dog")
              (plain_options true)) as [[[rs|e] S']|] eqn:H.
  - exact (highlighted_line_of_result (fun s => "(" ++ s ++ ")") (fun s => "[" ++ s ++ "]")
             (fun s => s) 10 _ _ _ rs S' mini_engine_bounded H).
  - refute_with (fun o : option (res (list Result) * Searcherer mini_engine) =>
                   match o with Some (Ok _, _) => true | _ => false end) H.
  - refute_with (fun o : option (res (list Result) * Searcherer mini_engine) =>
                   match o with Some (Ok _, _) => true | _ => false end) H.
Defined.


Lemma complete_consumption_leaves_no_trace_witness :
  clean_dict (dict_of (E:=mini_engine) 0 ["a"]) /\
  match consume 10 (Dictionary_search (line_context "aa" false)) (dict_of (E:=mini_engine) 0 ["a"]) with
  | Some (rs, d', None) =>
      clean_dict d' /\
      consume 10 (Dictionary_search (line_context "ba" false)) d'
      = consume 10 (Dictionary_search (line_context "ba" false)) (dict_of (E:=mini_engine) 0 ["a"])
  | _ => False
  end.
Proof.
  assert (Hc : clean_dict (dict_of (E:=mini_engine) 0 ["a"])).
  { intros cs m Hm.
    assert (K : d_regExpMaps (dict_of (E:=mini_engine) 0 ["a"]) = []) by reflexivity.
    rewrite K in Hm. discriminate Hm. }
  split; [exact Hc|].
  destruct (consume 10 (Dictionary_search (line_context "aa" false)) (dict_of (E:=mini_engine) 0 ["a"]))
    as [[[rs d'] [e|]]|] eqn:H.
  - refute_with (fun o : option (list Result * Dictionary mini_engine * option js_error) =>
                   match o with Some (_, _, None) => true | _ => false end) H.
  - destruct (complete_consumption_leaves_no_trace _ _ _ _ _ Hc H) as [Hc' Hs].
    split; [exact Hc'|]. exact (Hs 10 (line_context "ba" false) eq_refl).
  - refute_with (fun o : option (list Result * Dictionary mini_engine * option js_error) =>
                   match o with Some (_, _, None) => true | _ => false end) H.
Defined.

Lemma search_again_same_results_witness :
  Forall clean_dict [dict_of (E:=mini_engine) 0 ["a"]] /\
  match search 10 (searcherer_of [dict_of (E:=mini_engine) 0 ["a"]]) (Some "aa")
          (plain_options false) with
  | Some (Ok rs, S1) =>
      Forall clean_dict (s_dictionaries S1) /\
      match search 10 (searcherer_of [dict_of (E:=mini_engine) 0 ["a"]]) (Some "ba")
              (plain_options false) with
      | Some (Ok rs', _) => exists S3, search 10 S1 (Some "ba") (plain_options false) = Some (Ok rs', S3)
      | _ => False
      end
  | _ => False
  end.
Proof.
  assert (Hc : Forall clean_dict [dict_of (E:=mini_engine) 0 ["a"]]).
  { constructor; [|constructor]. intros cs m Hm.
    assert (K : d_regExpMaps (dict_of (E:=mini_engine) 0 ["a"]) = []) by reflexivity.
    rewrite K in Hm. discriminate Hm. }
  split; [exact Hc|].
  destruct (search 10 (searcherer_of [dict_of (E:=mini_engine) 0 ["a"]]) (Some "aa")
              (plain_options false)) as [[[rs|e] S1]|] eqn:H.
  - destruct (search_again_same_results 10 (searcherer_of [dict_of 0 ["a"]]) S1 "aa"
                (plain_options false) rs Hc ltac:(discriminate) H) as [Hc1 Hs].
    split; [exact Hc1|].
    destruct (search 10 (searcherer_of [dict_of (E:=mini_engine) 0 ["a"]]) (Some "ba")
                (plain_options false)) as [[[rs'|e] S2]|] eqn:H2.
    + destruct (Hs _ _ _ H2) as [S3 [HS3 _]]. exists S3. exact HS3.
    + refute_with (fun o : option (res (list Result) * Searcherer mini_engine) =>
                     match o with Some (Ok _, _) => true | _ => false end) H2.
    + refute_with (fun o : option (res (list Result) * Searcherer mini_engine) =>
                     match o with Some (Ok _, _) => true | _ => false end) H2.
  - refute_with (fun o : option (res (list Result) * Searcherer mini_engine) =>
                   match o with Some (Ok _, _) => true | _ => false end) H.
  - refute_with (fun o : option (res (list Result) * Searcherer mini_engine) =>
                   match o with Some (Ok _, _) => true | _ => false end) H.
Defined.
